(** * LMStudio MCP bridge: the resilient client

    A shallow embedding of [src/lm-studio-client.ts] (class [LMStudioClient])
    together with the part of [src/index.ts] that owns the shutdown flag, and
    the properties of admission control, caching, retry, health probing and
    shutdown that hold of it.

    Conventions.
    - JavaScript numbers that hold counters, millisecond clocks and
      configuration integers are [Z].
    - An [async] method is cut at its [await]s into synchronous segments.
      Each segment is a function on the state; it runs to completion, as a
      turn of the Node.js event loop does, and reads the clock once ([now]).
    - A [throw] is the [Throw] result; a settled promise is [Returned] or
      [Thrown].
    - Logging is omitted: the logger writes no state that the client reads. *)

From Stdlib Require Import ZArith QArith Lia.
From stdpp Require Import base decidable option list gmap strings pretty.

Local Open Scope Z_scope.

(** ** Configuration ([config.ts]) *)

(** The fields of [config] that the client reads. [lmStudio.maxRetries] is
    [lmStudio_maxRetries] and so on; the URL, key and model name are not
    needed. *)
Record Config := {
  lmStudio_maxRetries : Z;
  lmStudio_retryDelay : Z;
  lmStudio_timeout : Z;
  lmStudio_healthCheckInterval : Z;
  server_gracefulShutdownTimeout : Z;
  rateLimit_enabled : bool;
  rateLimit_maxRequestsPerMinute : Z;
  rateLimit_maxConcurrent : Z;
  cache_enabled : bool;
  cache_ttl : Z;
  cache_checkPeriod : Z
}.

(** [ConfigSchema]: every number is [z.number().int().positive()]. *)
Definition ConfigSchema (c : Config) : bool :=
  bool_decide (0 < lmStudio_maxRetries c) &&
  bool_decide (0 < lmStudio_retryDelay c) &&
  bool_decide (0 < lmStudio_timeout c) &&
  bool_decide (0 < lmStudio_healthCheckInterval c) &&
  bool_decide (0 < server_gracefulShutdownTimeout c) &&
  bool_decide (0 < rateLimit_maxRequestsPerMinute c) &&
  bool_decide (0 < rateLimit_maxConcurrent c) &&
  bool_decide (0 < cache_ttl c) &&
  bool_decide (0 < cache_checkPeriod c).

(** [loadConfig] with an empty environment: the defaults. *)
Definition defaultConfig : Config := {|
  lmStudio_maxRetries := 3;
  lmStudio_retryDelay := 1000;
  lmStudio_timeout := 30000;
  lmStudio_healthCheckInterval := 60000;
  server_gracefulShutdownTimeout := 5000;
  rateLimit_enabled := true;
  rateLimit_maxRequestsPerMinute := 60;
  rateLimit_maxConcurrent := 10;
  cache_enabled := true;
  cache_ttl := 300;
  cache_checkPeriod := 60
|}.

(** ** Errors and results *)

(** A JavaScript [Error]: the two properties the client inspects, and the
    outcome of the test [error instanceof TypeError && !isNetworkError(error)]
    by which [p-retry] decides to give up at once. The messages that
    [isNetworkError] knows differ between the releases of the library, so
    the outcome of the test is kept rather than computed from the message. *)
Record JsError := {
  name : string;
  message : string;
  nonNetworkTypeError : bool
}.

Global Instance JsError_eq_dec : EqDecision JsError.
Proof. solve_decision. Defined.

(** [new Error(msg)]. *)
Definition newError (msg : string) : JsError :=
  {| name := "Error"; message := msg; nonNetworkTypeError := false |}.

Inductive Result (A : Type) : Type :=
| Ok (a : A)
| Throw (e : JsError).
Arguments Ok {A} a.
Arguments Throw {A} e.

(** The three messages thrown by the client itself. *)
Definition RateLimitExceeded : JsError :=
  newError "Rate limit exceeded. Please try again later.".
Definition TooManyConcurrent : JsError :=
  newError "Too many concurrent requests. Please try again later.".
Definition NotResponding : JsError :=
  newError "LM Studio is not responding. Please ensure it is running.".

(** ** Numbers in template literals *)

(** The numbers of the configuration are JavaScript numbers, that is
    doubles, and [Z] holds their values. [`${x}`] prints the shortest
    decimal that reads back as [x] ([Number::toString]): the digits of an
    integer below [2 ^ 53], and above that possibly fewer digits followed
    by zeros, in exponent notation from [1e21] on. *)

(** The double nearest to a non-negative integer, ties to the even
    significand, while it is finite. *)
Definition toDouble (z : Z) : Z :=
  if z <? 2 ^ 53 then z
  else
    let shift := Z.log2 z - 52 in
    let q := Z.shiftr z shift in
    let r := z - Z.shiftl q shift in
    let half := Z.shiftl 1 (shift - 1) in
    let q' :=
      if r <? half then q
      else if half <? r then q + 1
      else if Z.even q then q else q + 1 in
    Z.shiftl q' shift.

(** The number [s * 10 ^ e] with [k] digits in [s] that reads back as the
    double [x], if there is one: the nearer of the two neighbours of
    [x / 10 ^ e], the even one when they are as near. *)
Definition decimalOf (x : Z) (k : Z) : option (Z * Z) :=
  let e := Z.of_nat (String.length (pretty x)) - k in
  let lo := x / 10 ^ e in
  let hi := lo + 1 in
  match bool_decide (toDouble (lo * 10 ^ e) = x),
        bool_decide (toDouble (hi * 10 ^ e) = x) with
  | true, true =>
      let below := x - lo * 10 ^ e in
      let above := hi * 10 ^ e - x in
      Some (if below <? above then lo
            else if above <? below then hi
            else if Z.even lo then lo else hi, e)
  | true, false => Some (lo, e)
  | false, true => Some (hi, e)
  | false, false => None
  end.

(** The shortest such number: [k] from 1 up; 17 digits always suffice. *)
Definition shortestDecimal (x : Z) : Z * Z :=
  default (x, 0)
    (List.find (λ o, bool_decide (is_Some o)) (decimalOf x <$> seqZ 1 17) ≫= id).

(** [s * 10 ^ e] without zeros at the end of [s]. *)
Fixpoint normalised (fuel : nat) (s e : Z) : Z * Z :=
  match fuel with
  | O => (s, e)
  | S fuel =>
      if bool_decide (s ≠ 0 ∧ s `mod` 10 = 0) then normalised fuel (s / 10) (e + 1)
      else (s, e)
  end.

Definition zeros (n : Z) : string :=
  String.concat "" (replicate (Z.to_nat n) "0").

(** [Number::toString] of a non-negative integer-valued number. *)
Definition positiveToString (z : Z) : string :=
  if bool_decide (2 ^ 1024 - 2 ^ 970 ≤ z) then "Infinity"
  else
    let x := toDouble z in
    if x <? 2 ^ 53 then pretty x
    else
      let '(s, e) := uncurry (normalised 17) (shortestDecimal x) in
      let digits := pretty s in
      let n := Z.of_nat (String.length digits) + e in
      if n <=? 21 then digits +:+ zeros e
      else
        match digits with
        | String d EmptyString => String d EmptyString
        | String d rest => String d ("." +:+ rest)
        | EmptyString => EmptyString
        end +:+ "e+" +:+ pretty (n - 1).

(** [`${x}`] for an integer-valued [x]. *)
Definition numberToString (z : Z) : string :=
  if z <? 0 then "-" +:+ positiveToString (- z) else positiveToString z.

(** [new Error(`Request timed out after ${config.lmStudio.timeout}ms`)]. *)
Definition RequestTimedOut (c : Config) : JsError :=
  newError ("Request timed out after " +:+ numberToString (lmStudio_timeout c) +:+ "ms").

(** JavaScript truthiness of a [string | undefined]: defined and not empty. *)
Definition truthy (s : option string) : bool :=
  match s with
  | Some s => negb (String.eqb s "")
  | None => false
  end.

(** ** The cache ([node-cache]) *)

(** The library is a dependency of the repository. The client uses [get],
    [set], [flushAll], [close] and [keys]; they are written here after the
    library's documented behaviour, with [useClones: false] and
    [deleteOnExpire] at its default. *)
Module NodeCache.

(** A stored value [v] and its expiry instant [t] in milliseconds. *)
Record Entry := { v : string; t : Z }.

(** [data] is the store; [checkTimer] tells whether the periodic sweep
    timer is armed. *)
Record state := { data : gmap string Entry; checkTimer : bool }.

(** [new NodeCache({stdTTL, checkperiod})]: empty, sweep armed. *)
Definition create (checkperiod : Z) : state :=
  {| data := ∅; checkTimer := bool_decide (0 < checkperiod) |}.

(** An entry is live until the clock passes its expiry instant. *)
Definition live (now : Z) (e : Entry) : bool :=
  negb (bool_decide (t e ≠ 0) && bool_decide (t e < now)).

(** [get(key)]: the value if present and live; an expired entry is
    deleted on the way. *)
Definition get (now : Z) (key : string) (c : state) : option string * state :=
  match data c !! key with
  | Some e =>
      if live now e then (Some (v e), c)
      else (None, {| data := delete key (data c); checkTimer := checkTimer c |})
  | None => (None, c)
  end.

(** [set(key, value)] with the standard TTL in seconds; a TTL of 0 means
    no expiry, which the entry records as instant 0. *)
Definition set (now ttl : Z) (key value : string) (c : state) : state :=
  let expiry := if bool_decide (ttl = 0) then 0 else now + ttl * 1000 in
  {| data := <[key := {| v := value; t := expiry |}]> (data c);
     checkTimer := checkTimer c |}.

(** The periodic sweep drops every expired entry. *)
Definition checkData (now : Z) (c : state) : state :=
  {| data := filter (λ kv, live now kv.2 = true) (data c);
     checkTimer := checkTimer c |}.

(** [flushAll()]: empties the store and re-arms the sweep timer. *)
Definition flushAll (checkperiod : Z) (c : state) : state :=
  {| data := ∅; checkTimer := bool_decide (0 < checkperiod) |}.

(** [close()]: disarms the sweep timer. *)
Definition close (c : state) : state :=
  {| data := data c; checkTimer := false |}.

(** [keys()]. *)
Definition keys (c : state) : list string := (map_to_list (data c)).*1.

End NodeCache.

(** ** The client state *)

(** The private fields of [LMStudioClient]. *)
Record LMStudioClient := {
  cache : NodeCache.state;
  isHealthy : bool;
  lastHealthCheck : Z;
  activeRequests : Z;
  totalRequests : Z;
  totalErrors : Z;
  requestTimestamps : list Z
}.

Definition with_cache (c : NodeCache.state) (s : LMStudioClient) : LMStudioClient :=
  {| cache := c; isHealthy := isHealthy s; lastHealthCheck := lastHealthCheck s;
     activeRequests := activeRequests s; totalRequests := totalRequests s;
     totalErrors := totalErrors s; requestTimestamps := requestTimestamps s |}.

Definition with_isHealthy (b : bool) (s : LMStudioClient) : LMStudioClient :=
  {| cache := cache s; isHealthy := b; lastHealthCheck := lastHealthCheck s;
     activeRequests := activeRequests s; totalRequests := totalRequests s;
     totalErrors := totalErrors s; requestTimestamps := requestTimestamps s |}.

Definition with_lastHealthCheck (z : Z) (s : LMStudioClient) : LMStudioClient :=
  {| cache := cache s; isHealthy := isHealthy s; lastHealthCheck := z;
     activeRequests := activeRequests s; totalRequests := totalRequests s;
     totalErrors := totalErrors s; requestTimestamps := requestTimestamps s |}.

Definition with_activeRequests (z : Z) (s : LMStudioClient) : LMStudioClient :=
  {| cache := cache s; isHealthy := isHealthy s; lastHealthCheck := lastHealthCheck s;
     activeRequests := z; totalRequests := totalRequests s;
     totalErrors := totalErrors s; requestTimestamps := requestTimestamps s |}.

Definition with_totalRequests (z : Z) (s : LMStudioClient) : LMStudioClient :=
  {| cache := cache s; isHealthy := isHealthy s; lastHealthCheck := lastHealthCheck s;
     activeRequests := activeRequests s; totalRequests := z;
     totalErrors := totalErrors s; requestTimestamps := requestTimestamps s |}.

Definition with_totalErrors (z : Z) (s : LMStudioClient) : LMStudioClient :=
  {| cache := cache s; isHealthy := isHealthy s; lastHealthCheck := lastHealthCheck s;
     activeRequests := activeRequests s; totalRequests := totalRequests s;
     totalErrors := z; requestTimestamps := requestTimestamps s |}.

Definition with_requestTimestamps (l : list Z) (s : LMStudioClient) : LMStudioClient :=
  {| cache := cache s; isHealthy := isHealthy s; lastHealthCheck := lastHealthCheck s;
     activeRequests := activeRequests s; totalRequests := totalRequests s;
     totalErrors := totalErrors s; requestTimestamps := l |}.

(** The field initialisers and the cache built by the constructor. *)
Definition newClient (config : Config) : LMStudioClient := {|
  cache := NodeCache.create (cache_checkPeriod config);
  isHealthy := false;
  lastHealthCheck := 0;
  activeRequests := 0;
  totalRequests := 0;
  totalErrors := 0;
  requestTimestamps := []
|}.

(** ** Admission: [enforceRateLimit] *)

(** [requestTimestamps.filter(ts => ts > oneMinuteAgo)]. *)
Definition pruneWindow (now : Z) (l : list Z) : list Z :=
  filter (λ ts, now - 60000 < ts) l.
Arguments pruneWindow : simpl never.

Definition enforceRateLimit (config : Config) (now : Z) (s : LMStudioClient)
  : LMStudioClient * Result unit :=
  if negb (rateLimit_enabled config) then (s, Ok tt)
  else
    let s1 := with_requestTimestamps (pruneWindow now (requestTimestamps s)) s in
    if bool_decide (rateLimit_maxRequestsPerMinute config ≤ Z.of_nat (length (requestTimestamps s1)))
    then (s1, Throw RateLimitExceeded)
    else if bool_decide (rateLimit_maxConcurrent config ≤ activeRequests s1)
    then (s1, Throw TooManyConcurrent)
    else (with_requestTimestamps (requestTimestamps s1 ++ [now]) s1, Ok tt).

(** ** The process around the client *)

(** The client together with what it holds outside its fields: the
    [setInterval] timer of [startHealthCheckLoop] (its handle is not kept),
    and two counters on the endpoint, the calls of [models.list()] and of
    [chat.completions.create()] issued so far. *)
Record World := {
  client : LMStudioClient;
  healthInterval : bool;
  modelsListCalls : nat;
  chatCompletionCalls : nat
}.

Definition with_client (s : LMStudioClient) (w : World) : World :=
  {| client := s; healthInterval := healthInterval w;
     modelsListCalls := modelsListCalls w;
     chatCompletionCalls := chatCompletionCalls w |}.

(** ** Health probing: [checkHealth] *)

(** Lines 47-52: [models.list()] is issued and the method suspends. *)
Definition checkHealth_begin (w : World) : World :=
  {| client := client w; healthInterval := healthInterval w;
     modelsListCalls := S (modelsListCalls w);
     chatCompletionCalls := chatCompletionCalls w |}.

(** Lines 54-63 when the probe answered within five seconds ([ok]), lines
    64-67 otherwise. A failed probe leaves [lastHealthCheck] as it was. *)
Definition checkHealth_settle (now : Z) (ok : bool) (s : LMStudioClient)
  : LMStudioClient * bool :=
  if ok then (with_lastHealthCheck now (with_isHealthy true s), true)
  else (with_isHealthy false s, false).

(** ** Retrying: [p-retry] around [p-timeout] *)

(** What the endpoint does with one [chat.completions.create()]. *)
Inductive Reply :=
| Completion (content : option string)
    (** a response that [LMStudioResponseSchema] accepts; [content] is
        [choices[0]?.message?.content] *)
| Malformed (issues : string)
    (** a response that the schema rejects *)
| ApiError (e : JsError)
    (** the call rejects *)
| NoReply.
    (** nothing within [config.lmStudio.timeout] *)

(** The rejection of [p-timeout]. *)
Definition TimeoutError (ms : Z) : JsError :=
  {| name := "TimeoutError";
     message := "Promise timed out after " +:+ numberToString ms +:+ " milliseconds";
     nonNetworkTypeError := false |}.

(** Lines 128-143: one attempt. *)
Definition attempt (config : Config) (r : Reply) : Result (option string) :=
  match r with
  | Completion content => Ok content
  | Malformed issues =>
      Throw {| name := "ZodError"; message := issues; nonNetworkTypeError := false |}
  | ApiError e => Throw e
  | NoReply => Throw (TimeoutError (lmStudio_timeout config))
  end.

(** [p-retry] is a dependency of the repository, and hands the waiting to
    the [retry] package. Both are written here after their documented
    behaviour, as in the releases of [p-retry] that rest on [retry] (up to
    6.x), with the options that the client passes: the default [factor] of
    2, no randomisation, no [shouldRetry], and an [onFailedAttempt] that
    only logs. The operation of the client rejects with instances of
    [Error], and with no [AbortError], a class of [p-retry] that the
    repository never constructs. *)
Module PRetry.

(** [Math.min(Math.round(random * Math.max(minTimeout, 1) *
    Math.pow(factor, attempt)), maxTimeout)]: the wait after the failure of
    attempt [attempt + 1]. *)
Definition createTimeout (minTimeout maxTimeout : Z) (attempt : nat) : Z :=
  Z.min (Z.max minTimeout 1 * 2 ^ Z.of_nat attempt) maxTimeout.

(** [retry.timeouts(options)]: one wait per retry. The package sorts them
    in ascending order, which is the order they are made in, as
    [createTimeout] never decreases. *)
Definition timeouts (retries : nat) (minTimeout maxTimeout : Z) : list Z :=
  createTimeout minTimeout maxTimeout <$> seq 0 retries.


(** [operation.mainError()]: the error whose message occurred most often
    among the failures that were retried or exhausted the retries, the
    later one when two are as frequent; [None] only when there is no
    failure. The loop of the package is kept: one step per error, with
    the [counts] by message and the error and count that lead so far. *)
Definition mainErrorStep (acc : gmap string nat * option JsError * nat)
    (error : JsError) : gmap string nat * option JsError * nat :=
  let '(counts, main, mainCount) := acc in
  let count := S (default 0%nat (counts !! message error)) in
  if bool_decide (mainCount ≤ count)%nat
  then (<[message error := count]> counts, Some error, count)
  else (<[message error := count]> counts, main, mainCount).

Arguments mainErrorStep : simpl never.

Definition mainError (errors : list JsError) : option JsError :=
  (foldl mainErrorStep (∅, None, 0%nat) errors).1.2.

(** What a run did: how it settled, how many times the operation was
    called, and the waits in order. *)
Record Run (A : Type) := {
  outcome : Result A;
  attempts : nat;
  delays : list Z
}.
Arguments outcome {A} _.
Arguments attempts {A} _.
Arguments delays {A} _.

(** The attempts from number [attemptNumber] on; [op n] is the result of
    attempt number [n], counted from 1, [timeouts] are the waits that are
    left, and [errors] the failures handed to [operation.retry] so far. A
    [TypeError] that reports no network failure is not retried and is the
    outcome as it is. Any other failure is recorded and, while a wait is
    left, followed by that wait and the next attempt; when none is left
    the run settles with [mainError]. *)
Fixpoint run {A} (op : nat → Result A) (timeouts : list Z) (errors : list JsError)
    (attemptNumber : nat) {struct timeouts} : Run A :=
  match op attemptNumber with
  | Ok a => {| outcome := Ok a; attempts := 1; delays := [] |}
  | Throw error =>
      if nonNetworkTypeError error
      then {| outcome := Throw error; attempts := 1; delays := [] |}
      else
        let errors := errors ++ [error] in
        match timeouts with
        | [] =>
            {| outcome := Throw (default error (mainError errors));
               attempts := 1; delays := [] |}
        | timeout :: timeouts =>
            let rest := run op timeouts errors (S attemptNumber) in
            {| outcome := outcome rest;
               attempts := S (attempts rest);
               delays := timeout :: delays rest |}
        end
  end.

(** [pRetry(op, {retries, minTimeout, maxTimeout})]. The [retry] package
    refuses a [minTimeout] above [maxTimeout] when the operation is set
    up, before any attempt. *)
Definition pRetry {A} (op : nat → Result A) (retries minTimeout maxTimeout : Z)
  : Run A :=
  if bool_decide (maxTimeout < minTimeout) then
    {| outcome := Throw (newError "minTimeout is greater than maxTimeout");
       attempts := 0; delays := [] |}
  else run op (timeouts (Z.to_nat retries) minTimeout maxTimeout) [] 1.

End PRetry.

(** Lines 127-155: the retried call, given what the endpoint does with each
    attempt. *)
Definition retried (config : Config) (replies : nat → Reply)
  : PRetry.Run (option string) :=
  PRetry.pRetry (λ n, attempt config (replies n))
    (lmStudio_maxRetries config)
    (lmStudio_retryDelay config)
    (lmStudio_retryDelay config * 3).

(** ** [complete] *)

(** The option of [complete] that the client itself reads; [temperature],
    [maxTokens] and [stream] only travel to the endpoint. *)
Record Options := { cacheKey : option string }.

(** Where a call of [complete] is waiting. *)
Inductive Await :=
| AwaitCheckHealth
    (** line 115, [checkHealth] waiting for [models.list()] *)
| AwaitCheckHealthReturn
    (** line 115, [checkHealth] has settled, the continuation is queued *)
| AwaitRetry (startTime : Z).
    (** line 127 *)

Inductive CallState :=
| Suspended (a : Await)
| Returned (s : string)
| Thrown (e : JsError).

(** [config.cache.enabled && options.cacheKey]: the key when the guard of
    lines 101 and 168 holds. *)
Definition cachingKey (config : Config) (opts : Options) : option string :=
  if cache_enabled config && truthy (cacheKey opts) then cacheKey opts else None.

(** Line 102: the lookup, which may delete an expired entry. *)
Definition cacheGet (config : Config) (now : Z) (opts : Options) (s : LMStudioClient)
  : option string * LMStudioClient :=
  match cachingKey config opts with
  | Some key =>
      let '(cached, c) := NodeCache.get now key (cache s) in
      (cached, with_cache c s)
  | None => (None, s)
  end.

(** Lines 118-127: the health gate, the two increments, and the start of
    the retried call. *)
Definition complete_dispatch (now : Z) (w : World) : World * CallState :=
  let s := client w in
  if negb (isHealthy s) then (w, Thrown NotResponding)
  else
    let s1 := with_activeRequests (activeRequests s + 1) s in
    let s2 := with_totalRequests (totalRequests s1 + 1) s1 in
    (with_client s2 w, Suspended (AwaitRetry now)).

(** Lines 100-116, and on to line 127 when no probe is needed. *)
Definition complete_enter (config : Config) (now : Z) (opts : Options) (w : World)
  : World * CallState :=
  let '(cached, s0) := cacheGet config now opts (client w) in
  if truthy cached then
    (with_client (with_totalRequests (totalRequests s0 + 1) s0) w,
     Returned (default "" cached))
  else
    match enforceRateLimit config now s0 with
    | (s1, Throw e) => (with_client s1 w, Thrown e)
    | (s1, Ok _) =>
        if negb (isHealthy s1) && bool_decide (10000 < now - lastHealthCheck s1)
        then (checkHealth_begin (with_client s1 w), Suspended AwaitCheckHealth)
        else complete_dispatch now (with_client s1 w)
    end.

(** [checkHealth] settles for a call waiting at line 115. *)
Definition complete_probed (now : Z) (ok : bool) (w : World) : World * CallState :=
  (with_client (checkHealth_settle now ok (client w)).1 w,
   Suspended AwaitCheckHealthReturn).

(** Lines 157-190: the retried call has settled. The attempts it made are
    added to the endpoint's counter here. *)
Definition complete_settle (config : Config) (now : Z) (opts : Options)
    (r : PRetry.Run (option string)) (w : World) : World * CallState :=
  let w0 :=
    {| client := client w; healthInterval := healthInterval w;
       modelsListCalls := modelsListCalls w;
       chatCompletionCalls := (chatCompletionCalls w + PRetry.attempts r)%nat |} in
  let s := client w0 in
  match PRetry.outcome r with
  | Ok content =>
      let result := default "" content in
      let s1 :=
        match cachingKey config opts with
        | Some key =>
            with_cache (NodeCache.set now (cache_ttl config) key result (cache s)) s
        | None => s
        end in
      (with_client (with_activeRequests (activeRequests s1 - 1) s1) w0,
       Returned result)
  | Throw error =>
      let s1 := with_totalErrors (totalErrors s + 1) s in
      let surfaced :=
        if String.eqb (name error) "TimeoutError" then RequestTimedOut config
        else error in
      (with_client (with_activeRequests (activeRequests s1 - 1) s1) w0,
       Thrown surfaced)
  end.

(** ** [shutdown] *)

(** Lines 254-258: [cache.flushAll(); cache.close()]. *)
Definition shutdown (config : Config) (w : World) : World :=
  let s := client w in
  with_client
    (with_cache (NodeCache.close (NodeCache.flushAll (cache_checkPeriod config) (cache s))) s)
    w.

(** ** The server's shutdown flag ([index.ts]) *)

Module Server.

(** [LMStudioMCPServer]: the client it owns, its flag, and the set of
    tool calls in progress. *)
Record state := {
  lmStudioClient : World;
  isShuttingDown : bool;
  activeRequests : gset string
}.

(** The constructor, as far as these fields go. *)
Definition create (w : World) : state :=
  {| lmStudioClient := w; isShuttingDown := false; activeRequests := ∅ |}.

(** The first statement of [gracefulShutdown], on SIGINT or SIGTERM. *)
Definition gracefulShutdown_begin (srv : state) : state :=
  {| lmStudioClient := lmStudioClient srv; isShuttingDown := true;
     activeRequests := activeRequests srv |}.

(** A call of [this.lmStudioClient.shutdown()]. *)
Definition clientShutdown (config : Config) (srv : state) : state :=
  {| lmStudioClient := shutdown config (lmStudioClient srv);
     isShuttingDown := isShuttingDown srv;
     activeRequests := activeRequests srv |}.

End Server.

(** ** Interleaved calls *)

(** A call of [complete] in progress or settled. *)
Record Call := { options : Options; state : CallState }.

(** The world, the calls of [complete] by identifier, and the number of
    probes of the health loop that have not settled. *)
Record System := {
  world : World;
  calls : gmap nat Call;
  loopProbes : nat
}.

(** [new LMStudioClient()]: the interval is armed and the first probe is
    issued at once. *)
Definition newSystem (config : Config) : System :=
  {| world := checkHealth_begin
                {| client := newClient config; healthInterval := true;
                   modelsListCalls := 0; chatCompletionCalls := 0 |};
     calls := ∅;
     loopProbes := 1 |}.

(** A turn of the event loop. *)
Inductive Event :=
| Invoke (id : nat) (opts : Options)
    (** a caller enters [complete] *)
| ProbeSettles (id : nat) (ok : bool)
    (** the probe started by call [id] settles *)
| Resume (id : nat)
    (** call [id] continues after [await this.checkHealth()] *)
| RetrySettles (id : nat) (replies : nat → Reply)
    (** the retried request of call [id] settles *)
| IntervalFires
    (** the health loop starts a probe *)
| LoopProbeSettles (ok : bool)
    (** a probe of the health loop settles *)
| CacheSweep
    (** the cache's periodic sweep *)
| Shutdown.
    (** a caller runs [shutdown] *)

Definition put (id : nat) (opts : Options) (r : World * CallState) (sys : System)
  : System :=
  {| world := r.1;
     calls := <[id := {| options := opts; state := r.2 |}]> (calls sys);
     loopProbes := loopProbes sys |}.

Definition with_world (w : World) (sys : System) : System :=
  {| world := w; calls := calls sys; loopProbes := loopProbes sys |}.

(** One turn at clock [now]. An event that does not fit the state (an
    identifier in use, a call that is not waiting there) changes nothing. *)
Definition step (config : Config) (now : Z) (ev : Event) (sys : System) : System :=
  match ev with
  | Invoke id opts =>
      match calls sys !! id with
      | None => put id opts (complete_enter config now opts (world sys)) sys
      | Some _ => sys
      end
  | ProbeSettles id ok =>
      match calls sys !! id with
      | Some {| options := opts; state := Suspended AwaitCheckHealth |} =>
          put id opts (complete_probed now ok (world sys)) sys
      | _ => sys
      end
  | Resume id =>
      match calls sys !! id with
      | Some {| options := opts; state := Suspended AwaitCheckHealthReturn |} =>
          put id opts (complete_dispatch now (world sys)) sys
      | _ => sys
      end
  | RetrySettles id replies =>
      match calls sys !! id with
      | Some {| options := opts; state := Suspended (AwaitRetry _) |} =>
          put id opts
            (complete_settle config now opts (retried config replies) (world sys)) sys
      | _ => sys
      end
  | IntervalFires =>
      if healthInterval (world sys) then
        {| world := checkHealth_begin (world sys); calls := calls sys;
           loopProbes := S (loopProbes sys) |}
      else sys
  | LoopProbeSettles ok =>
      match loopProbes sys with
      | S n =>
          {| world := with_client (checkHealth_settle now ok (client (world sys))).1
                        (world sys);
             calls := calls sys; loopProbes := n |}
      | O => sys
      end
  | CacheSweep =>
      let s := client (world sys) in
      if NodeCache.checkTimer (cache s) then
        with_world (with_client (with_cache (NodeCache.checkData now (cache s)) s)
                      (world sys)) sys
      else sys
  | Shutdown => with_world (shutdown config (world sys)) sys
  end.

(** A schedule is a list of turns with their clock readings. *)
Definition run (config : Config) (schedule : list (Z * Event)) (sys : System)
  : System :=
  foldl (λ acc te, step config te.1 te.2 acc) sys schedule.

(** The state of call [id], if it was made. *)
Definition callState (sys : System) (id : nat) : option CallState :=
  state <$> calls sys !! id.

(** A single call run without any other turn in between: it enters at
    [t0], its probe (if it starts one) settles with [ok] at [t1], and its
    request (if it gets that far) settles at [t2]. *)
Definition complete_alone (config : Config) (t0 t1 t2 : Z) (opts : Options)
    (ok : bool) (replies : nat → Reply) (w : World) : World * CallState :=
  let r0 := complete_enter config t0 opts w in
  let r1 :=
    match r0.2 with
    | Suspended AwaitCheckHealth =>
        complete_dispatch t1 (complete_probed t1 ok r0.1).1
    | _ => r0
    end in
  match r1.2 with
  | Suspended (AwaitRetry _) =>
      complete_settle config t2 opts (retried config replies) r1.1
  | _ => r1
  end.

(** ** [completeStream] *)

(** The message of line 204, shorter than that of [complete]. *)
Definition StreamNotResponding : JsError := newError "LM Studio is not responding".

(** A call of [completeStream]: consuming the stream, resolved, or
    rejected. *)
Inductive StreamState :=
| Streaming (startTime : Z)
| StreamEnded
| StreamThrown (e : JsError).

(** Lines 201-218 up to the first [await]: the gate, the health flag (no
    re-probe here), the two increments, and the streaming request, which
    is issued in this turn. *)
Definition completeStream_enter (config : Config) (now : Z) (w : World)
  : World * StreamState :=
  match enforceRateLimit config now (client w) with
  | (s1, Throw e) => (with_client s1 w, StreamThrown e)
  | (s1, Ok _) =>
      if negb (isHealthy s1) then (with_client s1 w, StreamThrown StreamNotResponding)
      else
        let s2 := with_activeRequests (activeRequests s1 + 1) s1 in
        let s3 := with_totalRequests (totalRequests s2 + 1) s2 in
        ({| client := s3; healthInterval := healthInterval w;
            modelsListCalls := modelsListCalls w;
            chatCompletionCalls := S (chatCompletionCalls w) |},
         Streaming now)
  end.

(** What the endpoint does with a streaming request: the chunks it sends,
    each with its [choices[0]?.delta?.content], and the error that ends
    the stream, if one does (with no chunks when the request itself is
    rejected). *)
Record StreamCourse := {
  chunks : list (option string);
  failure : option JsError
}.

(** Lines 220-225: [onChunk] is called with every content that is truthy;
    [onChunk s] is [Some e] when the callback throws [e], which ends the
    loop. The result lists the contents the callback was called with. *)
Fixpoint forAwait (onChunk : string → option JsError) (cs : list (option string))
  : list string * option JsError :=
  match cs with
  | [] => ([], None)
  | c :: rest =>
      if truthy c then
        let content := default "" c in
        match onChunk content with
        | Some e => ([content], Some e)
        | None =>
            let r := forAwait onChunk rest in
            (content :: r.1, r.2)
        end
      else forAwait onChunk rest
  end.

(** Lines 212-238 once the stream is over: the callback's calls, then the
    [catch] and the [finally]. *)
Definition completeStream_settle (onChunk : string → option JsError)
    (course : StreamCourse) (w : World) : World * (list string * StreamState) :=
  let s := client w in
  let '(received, thrown) := forAwait onChunk (chunks course) in
  let error := match thrown with Some e => Some e | None => failure course end in
  match error with
  | None =>
      (with_client (with_activeRequests (activeRequests s - 1) s) w,
       (received, StreamEnded))
  | Some e =>
      let s1 := with_totalErrors (totalErrors s + 1) s in
      (with_client (with_activeRequests (activeRequests s1 - 1) s1) w,
       (received, StreamThrown e))
  end.

(** ** [getMetrics] *)

(** Lines 241-252. [errorRate] is kept as the exact quotient that the
    JavaScript division rounds. *)
Record Metrics := {
  m_isHealthy : bool;
  m_lastHealthCheck : Z;
  m_activeRequests : Z;
  m_totalRequests : Z;
  m_totalErrors : Z;
  m_errorRate : Q;
  m_cacheSize : nat;
  m_requestsPerMinute : nat
}.

Definition getMetrics (s : LMStudioClient) : Metrics := {|
  m_isHealthy := isHealthy s;
  m_lastHealthCheck := lastHealthCheck s;
  m_activeRequests := activeRequests s;
  m_totalRequests := totalRequests s;
  m_totalErrors := totalErrors s;
  m_errorRate :=
    if bool_decide (0 < totalRequests s)
    then Qmake (totalErrors s) (Z.to_pos (totalRequests s)) else 0%Q;
  m_cacheSize := length (NodeCache.keys (cache s));
  m_requestsPerMinute := length (requestTimestamps s)
|}.

(** ** Both entry points, interleaved *)

(** A call of [completeStream] with its callback and what the callback
    has received. *)
Record StreamCall := {
  onChunk : string → option JsError;
  streamState : StreamState;
  received : list string
}.

(** The system of [complete] calls, the calls of [completeStream], and a
    log of the instants at which [enforceRateLimit] let a call pass. *)
Record Process := {
  system : System;
  streamCalls : gmap nat StreamCall;
  gatePasses : list Z
}.

Definition newProcess (config : Config) : Process :=
  {| system := newSystem config; streamCalls := ∅; gatePasses := [] |}.

Inductive Turn :=
| ClientTurn (ev : Event)
    (** a turn of the system of [complete] calls *)
| StreamInvoke (id : nat) (callback : string → option JsError)
    (** a caller enters [completeStream] *)
| StreamOver (id : nat) (course : StreamCourse).
    (** the stream of call [id] has been consumed or has failed *)

(** The answer of the gate to a call of [complete], if the call gets that
    far. *)
Definition gateAnswer (config : Config) (now : Z) (opts : Options) (w : World)
  : option (Result unit) :=
  let '(cached, s0) := cacheGet config now opts (client w) in
  if truthy cached then None else Some (enforceRateLimit config now s0).2.

Definition logPass (now : Z) (answer : option (Result unit)) (log : list Z) : list Z :=
  match answer with
  | Some (Ok _) => log ++ [now]
  | _ => log
  end.

Definition stepProcess (config : Config) (now : Z) (turn : Turn) (p : Process)
  : Process :=
  match turn with
  | ClientTurn ev =>
      {| system := step config now ev (system p);
         streamCalls := streamCalls p;
         gatePasses :=
           match ev with
           | Invoke id opts =>
               match calls (system p) !! id with
               | None => logPass now (gateAnswer config now opts (world (system p)))
                           (gatePasses p)
               | Some _ => gatePasses p
               end
           | _ => gatePasses p
           end |}
  | StreamInvoke id callback =>
      match streamCalls p !! id with
      | None =>
          let r := completeStream_enter config now (world (system p)) in
          {| system := with_world r.1 (system p);
             streamCalls :=
               <[id := {| onChunk := callback; streamState := r.2; received := [] |}]>
                 (streamCalls p);
             gatePasses :=
               logPass now (Some (enforceRateLimit config now
                                    (client (world (system p)))).2)
                 (gatePasses p) |}
      | Some _ => p
      end
  | StreamOver id course =>
      match streamCalls p !! id with
      | Some {| onChunk := callback; streamState := Streaming _ |} =>
          let r := completeStream_settle callback course (world (system p)) in
          {| system := with_world r.1 (system p);
             streamCalls :=
               <[id := {| onChunk := callback; streamState := r.2.2;
                          received := r.2.1 |}]> (streamCalls p);
             gatePasses := gatePasses p |}
      | _ => p
      end
  end.

Definition runProcess (config : Config) (schedule : list (Z * Turn)) (p : Process)
  : Process :=
  foldl (λ acc tt, stepProcess config tt.1 tt.2 acc) p schedule.

(** The requests in progress: calls of [complete] waiting at line 127 and
    calls of [completeStream] consuming their stream. *)
Definition atRetry (c : Call) : bool :=
  match state c with Suspended (AwaitRetry _) => true | _ => false end.

Definition isStreaming (c : StreamCall) : bool :=
  match streamState c with Streaming _ => true | _ => false end.

Definition count {K V} `{Countable K} (P : V → bool) (m : gmap K V) : nat :=
  size (filter (λ kv, P kv.2 = true) m).

Definition inProgress (p : Process) : nat :=
  (count atRetry (calls (system p)) + count isStreaming (streamCalls p))%nat.

(** The passes logged in the 60 seconds up to [T]. *)
Definition passesIn (T : Z) (log : list Z) : list Z :=
  filter (λ t, T - 60000 < t ∧ t ≤ T) log.

(** The clock readings of a schedule never go back, and start at [c] or
    later. *)
Fixpoint clockFrom {E} (c : Z) (schedule : list (Z * E)) : Prop :=
  match schedule with
  | [] => True
  | (t, _) :: rest => c ≤ t ∧ clockFrom t rest
  end.

(** ** The tool registry ([tools.ts]) *)

(** The names of the entries of [tools], in order. *)
Definition toolNames : list string :=
  [ "generate_docs"; "summarize"; "extract_tags"; "analyze_code";
    "refactor_suggestions"; "generate_tests"; "process_markdown";
    "summarize_markdown"; "tag_markdown"; "analyze_markdown" ].

(** The [case] labels of the [switch] in [validateToolInput]. *)
Definition schemaCases : list string :=
  [ "generate_docs"; "summarize"; "extract_tags"; "analyze_code";
    "refactor_suggestions"; "generate_tests"; "process_markdown";
    "summarize_markdown"; "tag_markdown"; "analyze_markdown" ].

(** [getToolByName]: [tools.find(tool => tool.name === name)], as far as
    the name goes. *)
Definition getToolByName (name : string) : option string :=
  List.find (λ t, String.eqb t name) toolNames.

(** What a [throw] carries where the server tells the kinds apart. *)
Inductive Exception :=
| ValidationError (message : string)
    (** an instance of [ValidationError] *)
| OtherError (e : JsError)
    (** another instance of [Error] *)
| NotAnError.
    (** any other value *)

(** ** The tool-call handler and the signal handler ([index.ts]) *)

Module McpServer.

(** What the handler of [CallToolRequestSchema] returns: the text of the
    single content item, and [isError], absent (false) on success. *)
Record ToolResult := { text : string; isError : bool }.

(** The handlers of [tools.ts]. Each of the ten parses its arguments,
    builds a prompt and calls [client.complete] once. The four that take
    a [filePath] read the file first when one is given, which is an
    [await] of its own. Six pass a [cacheKey]; seven return the text of
    [client.complete] as it is, the other three work on it without ever
    throwing. *)
Definition fileTools : list string :=
  [ "process_markdown"; "summarize_markdown"; "tag_markdown"; "analyze_markdown" ].

Definition keyedTools : list string :=
  [ "generate_docs"; "summarize"; "extract_tags"; "process_markdown";
    "summarize_markdown"; "tag_markdown" ].

Definition plainTools : list string :=
  [ "generate_docs"; "summarize"; "analyze_code"; "refactor_suggestions";
    "generate_tests"; "summarize_markdown"; "analyze_markdown" ].

(** The options of the call of [client.complete]; [key] is the digest
    that [generateCacheKey] makes of the tool and its input. *)
Definition optionsOf (tool key : string) : Options :=
  {| cacheKey := if bool_decide (tool ∈ keyedTools) then Some key else None |}.

(** Where a handler that has been started is waiting. *)
Inductive Waiting :=
| ReadingFile
    (** [await fs.readFile(...)] *)
| Completing (opts : Options) (a : Await).
    (** [await client.complete(prompt, opts)], which waits at [a] *)

(** A tool call whose handler waits: the tool, what the handler makes of
    the text of [client.complete], and where it waits. *)
Record Handler := {
  tool : string;
  finish : string → string;
  waiting : Waiting
}.

(** The server of [Server.state]; the tool calls whose handler waits, by
    request identifier, oldest first; the probes of the client's health
    loop that have not settled; whether [start] still waits for
    [server.connect]; the runs of [gracefulShutdown] that poll, those that
    wait for the transport to close, the armed forced-exit timers, and the
    exit code once [process.exit] has run. The transport is set by [start]
    in the turn that constructs the server, before any signal is
    handled. *)
Record state := {
  core : Server.state;
  handlers : list (string * Handler);
  loopProbes : nat;
  connecting : bool;
  drainLoops : nat;
  closing : nat;
  forceTimers : nat;
  exited : option Z
}.

(** Lines 22-35 and 193-194: the server around a client that has just been
    constructed, in the world [w]; the first probe of the client's health
    loop is outstanding and [start] waits for [server.connect]. *)
Definition create (w : World) : state :=
  {| core := Server.create w; handlers := []; loopProbes := 1; connecting := true;
     drainLoops := 0; closing := 0; forceTimers := 0; exited := None |}.

Definition world (st : state) : World := Server.lmStudioClient (core st).

Definition with_core (srv : Server.state) (st : state) : state :=
  {| core := srv; handlers := handlers st; loopProbes := loopProbes st;
     connecting := connecting st; drainLoops := drainLoops st;
     closing := closing st; forceTimers := forceTimers st; exited := exited st |}.

Definition with_world (w : World) (st : state) : state :=
  with_core {| Server.lmStudioClient := w;
               Server.isShuttingDown := Server.isShuttingDown (core st);
               Server.activeRequests := Server.activeRequests (core st) |} st.

Definition with_requests (flag : bool) (ids : gset string) (srv : Server.state)
  : Server.state :=
  {| Server.lmStudioClient := Server.lmStudioClient srv;
     Server.isShuttingDown := flag;
     Server.activeRequests := ids |}.

Definition with_ids (ids : gset string) (st : state) : state :=
  with_core (with_requests (Server.isShuttingDown (core st)) ids (core st)) st.

Definition with_handlers (hs : list (string * Handler)) (st : state) : state :=
  {| core := core st; handlers := hs; loopProbes := loopProbes st;
     connecting := connecting st; drainLoops := drainLoops st;
     closing := closing st; forceTimers := forceTimers st; exited := exited st |}.

Definition with_loopProbes (n : nat) (st : state) : state :=
  {| core := core st; handlers := handlers st; loopProbes := n;
     connecting := connecting st; drainLoops := drainLoops st;
     closing := closing st; forceTimers := forceTimers st; exited := exited st |}.

Definition with_exited (code : Z) (st : state) : state :=
  {| core := core st; handlers := handlers st; loopProbes := loopProbes st;
     connecting := connecting st; drainLoops := drainLoops st;
     closing := closing st; forceTimers := forceTimers st; exited := Some code |}.

(** The first waiting call with this identifier. *)
Fixpoint lookupHandler (requestId : string) (hs : list (string * Handler))
  : option Handler :=
  match hs with
  | [] => None
  | (id, h) :: rest =>
      if String.eqb id requestId then Some h else lookupHandler requestId rest
  end.

(** The list without it. *)
Fixpoint dropHandler (requestId : string) (hs : list (string * Handler))
  : list (string * Handler) :=
  match hs with
  | [] => []
  | (id, h) :: rest =>
      if String.eqb id requestId then rest else (id, h) :: dropHandler requestId rest
  end.

(** The list with another entry in its place. *)
Fixpoint putHandler (requestId : string) (h' : Handler) (hs : list (string * Handler))
  : list (string * Handler) :=
  match hs with
  | [] => []
  | (id, h) :: rest =>
      if String.eqb id requestId then (id, h') :: rest
      else (id, h) :: putHandler requestId h' rest
  end.

(** What a tool's handler does up to its first [await], once its
    arguments have passed [validateToolInput]: it throws (the check for
    injected text, a missing [content]), or reads the file, or gets as far
    as [client.complete]. Which of the three depends on the arguments and
    on [validation.ts]; the turn says which, and for a call of
    [client.complete] with which digest. *)
Inductive Prefix :=
| Throws (x : Exception)
| AwaitsFile
| CallsComplete (key : string).

Inductive Event (Args : Type) :=
| ToolCall (now : Z) (requestId name : string) (args : option Args) (prefix : Prefix)
    (** a [tools/call] request arrives; [requestId] is the fresh UUID *)
| FileRead (now : Z) (requestId : string) (next : Exception + string)
    (** [fs.readFile] settles for the handler of call [requestId], which
        then throws or gets as far as [client.complete] *)
| ProbeSettles (now : Z) (requestId : string) (ok : bool)
    (** the re-probe started by the call of [client.complete] settles *)
| Resume (now : Z) (requestId : string)
    (** that call continues after [await this.checkHealth()] *)
| RetrySettles (now : Z) (requestId : string) (replies : nat → Reply)
    (** the retried request of that call settles *)
| IntervalFires
    (** the client's health loop starts a probe *)
| LoopProbeSettles (now : Z) (ok : bool)
    (** a probe of the health loop settles *)
| CacheSweep (now : Z)
    (** the cache's periodic sweep *)
| Connected
    (** [server.connect] resolves *)
| ConnectFails
    (** [server.connect] rejects: the [catch] of [start] calls
        [process.exit(1)], lines 185-188, which leaves nothing for the
        [catch] of line 194 *)
| Signal
    (** SIGINT or SIGTERM *)
| DrainPoll
    (** a drain loop wakes from its one-second sleep *)
| TransportClosed
    (** [transport.close()] resolves *)
| ForceTimeout.
    (** the timer of [gracefulShutdownTimeout] fires *)
Arguments ToolCall {Args}.
Arguments FileRead {Args}.
Arguments ProbeSettles {Args}.
Arguments Resume {Args}.
Arguments RetrySettles {Args}.
Arguments IntervalFires {Args}.
Arguments LoopProbeSettles {Args}.
Arguments CacheSweep {Args}.
Arguments Connected {Args}.
Arguments ConnectFails {Args}.
Arguments Signal {Args}.
Arguments DrainPoll {Args}.
Arguments TransportClosed {Args}.
Arguments ForceTimeout {Args}.

Definition errorResult (msg : string) : ToolResult :=
  {| text := "Error: " +:+ msg; isError := true |}.

(** The answer to a call that arrives and is answered in the same turn:
    [add] at line 54, [delete] at line 134. *)
Definition answeredAtOnce (requestId : string) (answer : ToolResult) (st : state)
  : state * option ToolResult :=
  let ids := Server.activeRequests (core st) in
  (with_ids (({[requestId]} ∪ ids) ∖ {[requestId]}) st, Some answer).

(** The answer to a call whose handler was waiting: [delete] at line 134. *)
Definition answered (requestId : string) (answer : ToolResult) (st : state)
  : state * option ToolResult :=
  let ids := Server.activeRequests (core st) in
  (with_handlers (dropHandler requestId (handlers st))
     (with_ids (ids ∖ {[requestId]}) st),
   Some answer).

Section Handling.

(** The configuration; the JSON arguments of a call and the empty object;
    the [parse] of the schema that belongs to a [case] label, [None] when
    it returns; whether [ValidationError] is a subclass of [Error]
    ([validation.ts]); and what the three tools that work on the text of
    [client.complete] make of it. *)
Variable config : Config.
Variable Args : Type.
Variable emptyArgs : Args.
Variable schemaParse : string → Args → option Exception.
Variable validationIsError : bool.
Variable postProcess : string → Args → string → string.

(** [validateToolInput], lines 859-890 of [tools.ts]: [None] when it
    returns. *)
Definition validateToolInput (toolName : string) (input : Args) : option Exception :=
  match getToolByName toolName with
  | None => Some (ValidationError ("Unknown tool: " +:+ toolName))
  | Some _ =>
      if bool_decide (toolName ∈ schemaCases) then schemaParse toolName input
      else None
  end.

(** [error instanceof Error ? error.message : 'Unknown error']. *)
Definition errorMessage (x : Exception) : string :=
  match x with
  | ValidationError m => if validationIsError then m else "Unknown error"
  | OtherError e => message e
  | NotAnError => "Unknown error"
  end.

(** Lines 52-137 up to [await tool.handler(...)]: the answer when the call
    ends there, or the name of the tool whose handler is started. *)
Definition handle (shuttingDown : bool) (name : string) (args : option Args)
  : ToolResult + string :=
  if shuttingDown then inl (errorResult "Server is shutting down")
  else
    match getToolByName name with
    | None => inl (errorResult ("Unknown tool: " +:+ name))
    | Some tool =>
        match validateToolInput name (default emptyArgs args) with
        | Some (ValidationError m) =>
            inl {| text := "Validation error: " +:+ m; isError := true |}
        | Some x => inl (errorResult (errorMessage x))
        | None => inr tool
        end
    end.

(** What the handler of [tool] returns when [client.complete] has
    returned [response]. *)
Definition finishOf (tool : string) (args : Args) (response : string) : string :=
  if bool_decide (tool ∈ plainTools) then response else postProcess tool args response.

(** Lines 97-135 for a segment of [client.complete] that has run for a
    handler on the list: the handler goes on waiting, or returns what it
    makes of the text, or rejects with the error of [client.complete]. *)
Definition proceed (requestId : string) (h : Handler) (opts : Options)
    (r : World * CallState) (st : state) : state * option ToolResult :=
  let st1 := with_world r.1 st in
  match r.2 with
  | Suspended a =>
      (with_handlers
         (putHandler requestId
            {| tool := tool h; finish := finish h; waiting := Completing opts a |}
            (handlers st1)) st1,
       None)
  | Returned response =>
      answered requestId {| text := finish h response; isError := false |} st1
  | Thrown e => answered requestId (errorResult (errorMessage (OtherError e))) st1
  end.

(** The same for the segment that runs in the turn in which the call
    arrives. *)
Definition proceedAtOnce (requestId : string) (h : Handler) (opts : Options)
    (r : World * CallState) (st : state) : state * option ToolResult :=
  let st1 := with_world r.1 st in
  match r.2 with
  | Suspended a =>
      (with_handlers
         (handlers st1 ++
            [(requestId,
              {| tool := tool h; finish := finish h; waiting := Completing opts a |})])
         (with_ids ({[requestId]} ∪ Server.activeRequests (core st1)) st1),
       None)
  | Returned response =>
      answeredAtOnce requestId {| text := finish h response; isError := false |} st1
  | Thrown e =>
      answeredAtOnce requestId (errorResult (errorMessage (OtherError e))) st1
  end.

(** One turn of the server: the state afterwards and the response sent,
    if one is. After [process.exit] nothing happens; a turn that does not
    fit the state (no such handler, a handler that waits elsewhere, a file
    read by a tool that reads none) changes nothing. *)
Definition step (ev : Event Args) (st : state) : state * option ToolResult :=
  let srv := core st in
  let ids := Server.activeRequests srv in
  let flag := Server.isShuttingDown srv in
  match exited st with
  | Some _ => (st, None)
  | None =>
      match ev with
      | ToolCall now requestId name args prefix =>
          match handle flag name args with
          | inl answer => answeredAtOnce requestId answer st
          | inr tool =>
              let h := {| tool := tool; finish := finishOf tool (default emptyArgs args);
                          waiting := ReadingFile |} in
              match prefix with
              | Throws x => answeredAtOnce requestId (errorResult (errorMessage x)) st
              | AwaitsFile =>
                  if bool_decide (tool ∈ fileTools) then
                    (with_handlers (handlers st ++ [(requestId, h)])
                       (with_ids ({[requestId]} ∪ ids) st), None)
                  else (st, None)
              | CallsComplete key =>
                  let opts := optionsOf tool key in
                  proceedAtOnce requestId h opts
                    (complete_enter config now opts (world st)) st
              end
          end
      | FileRead now requestId next =>
          match lookupHandler requestId (handlers st) with
          | Some {| tool := tool; finish := f; waiting := ReadingFile |} =>
              let h := {| tool := tool; finish := f; waiting := ReadingFile |} in
              match next with
              | inl x => answered requestId (errorResult (errorMessage x)) st
              | inr key =>
                  let opts := optionsOf tool key in
                  proceed requestId h opts (complete_enter config now opts (world st)) st
              end
          | _ => (st, None)
          end
      | ProbeSettles now requestId ok =>
          match lookupHandler requestId (handlers st) with
          | Some {| tool := tool; finish := f;
                    waiting := Completing opts AwaitCheckHealth |} =>
              proceed requestId
                {| tool := tool; finish := f; waiting := Completing opts AwaitCheckHealth |}
                opts (complete_probed now ok (world st)) st
          | _ => (st, None)
          end
      | Resume now requestId =>
          match lookupHandler requestId (handlers st) with
          | Some {| tool := tool; finish := f;
                    waiting := Completing opts AwaitCheckHealthReturn |} =>
              proceed requestId
                {| tool := tool; finish := f;
                   waiting := Completing opts AwaitCheckHealthReturn |}
                opts (complete_dispatch now (world st)) st
          | _ => (st, None)
          end
      | RetrySettles now requestId replies =>
          match lookupHandler requestId (handlers st) with
          | Some {| tool := tool; finish := f;
                    waiting := Completing opts (AwaitRetry start) |} =>
              proceed requestId
                {| tool := tool; finish := f;
                   waiting := Completing opts (AwaitRetry start) |}
                opts
                (complete_settle config now opts (retried config replies) (world st)) st
          | _ => (st, None)
          end
      | IntervalFires =>
          if healthInterval (world st) then
            (with_loopProbes (S (loopProbes st))
               (with_world (checkHealth_begin (world st)) st), None)
          else (st, None)
      | LoopProbeSettles now ok =>
          match loopProbes st with
          | S n =>
              (with_loopProbes n
                 (with_world
                    (with_client (checkHealth_settle now ok (client (world st))).1
                       (world st)) st), None)
          | O => (st, None)
          end
      | CacheSweep now =>
          let s := client (world st) in
          if NodeCache.checkTimer (cache s) then
            (with_world
               (with_client (with_cache (NodeCache.checkData now (cache s)) s)
                  (world st)) st, None)
          else (st, None)
      | Connected =>
          ({| core := srv; handlers := handlers st; loopProbes := loopProbes st;
              connecting := false; drainLoops := drainLoops st;
              closing := closing st; forceTimers := forceTimers st;
              exited := None |}, None)
      | ConnectFails =>
          if connecting st then (with_exited 1 st, None) else (st, None)
      | Signal =>
          if bool_decide (ids = ∅) then
            ({| core := Server.gracefulShutdown_begin srv; handlers := handlers st;
                loopProbes := loopProbes st; connecting := connecting st;
                drainLoops := drainLoops st; closing := S (closing st);
                forceTimers := forceTimers st; exited := None |}, None)
          else
            ({| core := Server.gracefulShutdown_begin srv; handlers := handlers st;
                loopProbes := loopProbes st; connecting := connecting st;
                drainLoops := S (drainLoops st); closing := closing st;
                forceTimers := S (forceTimers st); exited := None |}, None)
      | DrainPoll =>
          match drainLoops st with
          | S n =>
              if bool_decide (ids = ∅) then
                ({| core := srv; handlers := handlers st;
                    loopProbes := loopProbes st; connecting := connecting st;
                    drainLoops := n; closing := S (closing st);
                    forceTimers := pred (forceTimers st); exited := None |}, None)
              else (st, None)
          | O => (st, None)
          end
      | TransportClosed =>
          match closing st with
          | S _ => (with_exited 0 st, None)
          | O => (st, None)
          end
      | ForceTimeout =>
          match forceTimers st with
          | S _ => (with_exited 1 st, None)
          | O => (st, None)
          end
      end
  end.

(** A schedule of turns: the state at the end and the responses in
    order. *)
Fixpoint run (schedule : list (Event Args)) (st : state)
  : state * list ToolResult :=
  match schedule with
  | [] => (st, [])
  | ev :: rest =>
      let r := step ev st in
      let rs := run rest r.1 in
      (rs.1, match r.2 with Some a => a :: rs.2 | None => rs.2 end)
  end.

(** The identifiers of the tool calls in a schedule. *)
Definition callIds (schedule : list (Event Args)) : list string :=
  omap (λ ev, match ev with ToolCall _ id _ _ _ => Some id | _ => None end) schedule.

End Handling.

End McpServer.

(** ** [loadConfig] ([config.ts]) *)

Module ConfigLoader.

(** [process.env.X || dflt]: the default also stands in for an empty
    value. *)
Definition orElse (env : gmap string string) (var dflt : string) : string :=
  match env !! var with
  | Some s => if String.eqb s "" then dflt else s
  | None => dflt
  end.

(** [process.env.X !== 'false']. *)
Definition notFalse (env : gmap string string) (var : string) : bool :=
  match env !! var with
  | Some s => negb (String.eqb s "false")
  | None => true
  end.

(** [z.number().int().positive()] on the result of [parseInt], which is
    [None] for NaN and for an infinite result. *)
Definition positiveInt (x : option Z) : option Z :=
  match x with
  | Some z => if bool_decide (0 < z) then Some z else None
  | None => None
  end.

(** The values of [z.enum] for [logLevel]. *)
Definition logLevels : list string := ["error"; "warn"; "info"; "debug"].

(** The variables read through [parseInt], each with its default. *)
Definition numericSettings : list (string * string) :=
  [ ("LM_STUDIO_MAX_RETRIES", "3"); ("LM_STUDIO_RETRY_DELAY", "1000");
    ("LM_STUDIO_TIMEOUT", "30000"); ("HEALTH_CHECK_INTERVAL", "60000");
    ("GRACEFUL_SHUTDOWN_TIMEOUT", "5000"); ("RATE_LIMIT_MAX_REQUESTS", "60");
    ("RATE_LIMIT_MAX_CONCURRENT", "10"); ("CACHE_TTL", "300");
    ("CACHE_CHECK_PERIOD", "60"); ("METRICS_PORT", "9090") ].

Section Loading.

(** JavaScript's [parseInt] with one argument, [None] when the result is
    not a finite number, and the test of [z.string().url()]. *)
Variable parseInt : string → option Z.
Variable isUrl : string → bool.

Definition number (env : gmap string string) (var dflt : string) : option Z :=
  positiveInt (parseInt (orElse env var dflt)).

(** [loadConfig]: the fields of [Config] when [ConfigSchema.parse]
    accepts the object built from the environment, [None] when it throws.
    The API key, the model, the server's name and version are strings
    whatever the environment holds and cannot fail. *)
Definition loadConfig (env : gmap string string) : option Config :=
  if negb (isUrl (orElse env "LM_STUDIO_URL" "http://localhost:1234")) then None
  else if negb (bool_decide (orElse env "LOG_LEVEL" "info" ∈ logLevels)) then None
  else
    maxRetries ← number env "LM_STUDIO_MAX_RETRIES" "3";
    retryDelay ← number env "LM_STUDIO_RETRY_DELAY" "1000";
    timeout ← number env "LM_STUDIO_TIMEOUT" "30000";
    healthCheckInterval ← number env "HEALTH_CHECK_INTERVAL" "60000";
    gracefulShutdownTimeout ← number env "GRACEFUL_SHUTDOWN_TIMEOUT" "5000";
    maxRequestsPerMinute ← number env "RATE_LIMIT_MAX_REQUESTS" "60";
    maxConcurrent ← number env "RATE_LIMIT_MAX_CONCURRENT" "10";
    ttl ← number env "CACHE_TTL" "300";
    checkPeriod ← number env "CACHE_CHECK_PERIOD" "60";
    metricsPort ← number env "METRICS_PORT" "9090";
    Some {|
      lmStudio_maxRetries := maxRetries;
      lmStudio_retryDelay := retryDelay;
      lmStudio_timeout := timeout;
      lmStudio_healthCheckInterval := healthCheckInterval;
      server_gracefulShutdownTimeout := gracefulShutdownTimeout;
      rateLimit_enabled := notFalse env "RATE_LIMIT_ENABLED";
      rateLimit_maxRequestsPerMinute := maxRequestsPerMinute;
      rateLimit_maxConcurrent := maxConcurrent;
      cache_enabled := notFalse env "CACHE_ENABLED";
      cache_ttl := ttl;
      cache_checkPeriod := checkPeriod
    |}.

End Loading.

(** A reader of plain decimal numerals, for examples: what [parseInt]
    returns on a string of digits. *)
Fixpoint digits (s : string) (acc : Z) : option Z :=
  match s with
  | EmptyString => Some acc
  | String a rest =>
      let d := Z.of_N (Ascii.N_of_ascii a) - 48 in
      if bool_decide (0 ≤ d ≤ 9) then digits rest (acc * 10 + d) else None
  end.

Definition decimal (s : string) : option Z :=
  match s with
  | EmptyString => None
  | _ => digits s 0
  end.

End ConfigLoader.

(** ** Example data *)

(** A small configuration for examples: two admissions a minute, one call
    at a time, one retry. *)
Definition smallConfig : Config := {|
  lmStudio_maxRetries := 1;
  lmStudio_retryDelay := 1000;
  lmStudio_timeout := 30000;
  lmStudio_healthCheckInterval := 60000;
  server_gracefulShutdownTimeout := 5000;
  rateLimit_enabled := true;
  rateLimit_maxRequestsPerMinute := 2;
  rateLimit_maxConcurrent := 1;
  cache_enabled := true;
  cache_ttl := 300;
  cache_checkPeriod := 60
|}.

(** A healthy client with two admissions on record, at 1 s and at 2 s. *)
Definition busyClient : LMStudioClient := {|
  cache := NodeCache.create 60;
  isHealthy := true;
  lastHealthCheck := 500;
  activeRequests := 0;
  totalRequests := 2;
  totalErrors := 0;
  requestTimestamps := [1000; 2000]
|}.

Definition busyWorld : World := {|
  client := busyClient; healthInterval := true;
  modelsListCalls := 1; chatCompletionCalls := 2
|}.

(** A world whose cache holds ["pong"] under ["k"] until 301 s. *)
Definition warmWorld : World :=
  with_client
    (with_cache (NodeCache.set 1000 300 "k" "pong" (cache busyClient)) busyClient)
    busyWorld.

(** The freshly constructed client: flag down, last check at 0. *)
Definition freshWorld (config : Config) : World := world (newSystem config).


(** A call without a cache key. *)
Definition noKey : Options := {| cacheKey := None |}.

(** Two callers enter [complete] in the same turn right after
    construction; each starts its own probe; both probes succeed and both
    calls resume. *)
Definition raceSchedule : list (Z * Event) :=
  [ (1700000000000, Invoke 1 noKey);
    (1700000000000, Invoke 2 noKey);
    (1700000000040, ProbeSettles 1 true);
    (1700000000040, Resume 1);
    (1700000000041, ProbeSettles 2 true);
    (1700000000041, Resume 2) ].

(** The same race for any callers [ids]: all enter at [now], then for each
    in turn the probe succeeds and the call resumes, at [t]. *)
Definition raceOf (now t : Z) (ids : list nat) : list (Z * Event) :=
  ((λ i, (now, Invoke i noKey)) <$> ids) ++
  (ids ≫= λ i, [(t, ProbeSettles i true); (t, Resume i)]).

(** Calls under the key ["k"], and an endpoint that answers with the empty
    text. *)
Definition keyK : Options := {| cacheKey := Some "k" |}.
Definition emptyText : nat → Reply := λ _, Completion (Some "").

(** The client becomes healthy, a first call under ["k"] is made and
    settles with the empty text, and a second call under ["k"] follows. *)
Definition emptyTextSchedule : list (Z * Event) :=
  [ (1700000000000, LoopProbeSettles true);
    (1700000001000, Invoke 1 keyK);
    (1700000001500, RetrySettles 1 emptyText);
    (1700000002000, Invoke 2 keyK);
    (1700000002500, RetrySettles 2 emptyText) ].

(** The client becomes healthy; a call under ["k"] settles with the empty
    text; a call without a key follows and settles, which fills a window
    of two; then a third call comes, under ["k"] again. *)
Definition emptyHitSchedule : list (Z * Event) :=
  [ (1700000000000, LoopProbeSettles true);
    (1700000001000, Invoke 1 keyK);
    (1700000001500, RetrySettles 1 emptyText);
    (1700000002000, Invoke 2 noKey);
    (1700000002500, RetrySettles 2 (λ _, Completion (Some "pong")));
    (1700000003000, Invoke 3 keyK) ].

(** An endpoint whose client library fails with a [TypeError] that
    reports no network failure. *)
Definition programError : JsError :=
  {| name := "TypeError"; message := "body is not iterable";
     nonNetworkTypeError := true |}.

(** ** Auxiliary notions *)

(** Everything but the window of timestamps. *)
Definition sameCounters (s s' : LMStudioClient) : Prop :=
  cache s' = cache s ∧ isHealthy s' = isHealthy s ∧
  lastHealthCheck s' = lastHealthCheck s ∧ activeRequests s' = activeRequests s ∧
  totalRequests s' = totalRequests s ∧ totalErrors s' = totalErrors s.

(** The gate asked at each of the instants [times] in turn: the answers
    and the client afterwards. *)
Fixpoint enforceEach (config : Config) (times : list Z) (s : LMStudioClient)
  : list (Result unit) * LMStudioClient :=
  match times with
  | [] => ([], s)
  | t :: times' =>
      let r := enforceRateLimit config t s in
      let rest := enforceEach config times' r.1 in
      (r.2 :: rest.1, rest.2)
  end.

(** Call [i] was made without a key and waits for its re-probe. *)
Definition waiting (sys : System) (i : nat) : Prop :=
  calls sys !! i = Some {| options := noKey; state := Suspended AwaitCheckHealth |}.

(** The turns in which a call resumes from a re-probe. *)
Definition isResume (ev : Event) : bool :=
  match ev with Resume _ => true | _ => false end.

(** ** Further example data and auxiliary notions *)

(** A healthy client at ten calls in progress and sixty on record. *)
Definition saturatedWorld : World :=
  with_client
    (with_activeRequests 10
       (with_requestTimestamps (replicate 60 2000) busyClient))
    busyWorld.

(** The client is down, its last good check long ago, the window is full
    and the bound is reached. *)
Definition downAndFull : World :=
  with_client (with_isHealthy false (with_activeRequests 1 busyClient)) busyWorld.


(** The non-empty contents of a stream, in order. *)
Definition contents (cs : list (option string)) : list string :=
  filter (λ s, s ≠ "") (omap id cs).

(** The invariant of the counters: the active count is the number of
    requests in progress, and errors and requests in progress together
    never outnumber the requests counted. *)
Definition counted (p : Process) : Prop :=
  let s := client (world (system p)) in
  activeRequests s = Z.of_nat (inProgress p) ∧
  0 ≤ totalErrors s ∧
  totalErrors s + activeRequests s ≤ totalRequests s.

(** One turn either leaves the window and the log alone, or only prunes
    the window (a rejection), or prunes it, finds fewer than the bound, and
    records the pass in both. *)
Definition gateStep (config : Config) (now : Z) (ts ts' log log' : list Z) : Prop :=
  (ts' = ts ∧ log' = log) ∨
  (ts' = pruneWindow now ts ∧ log' = log) ∨
  (ts' = pruneWindow now ts ++ [now] ∧ log' = log ++ [now] ∧
   Z.of_nat (length (pruneWindow now ts)) < rateLimit_maxRequestsPerMinute config).

(** The window is the log pruned at the instant [c] of the last check,
    and no 60 seconds of the log hold more passes than the bound. *)
Definition windowed (config : Config) (c : Z) (ts log : list Z) : Prop :=
  ts = pruneWindow c log ∧
  ∀ T, Z.of_nat (length (passesIn T log)) ≤ rateLimit_maxRequestsPerMinute config.

(** Three callers within a second against a bound of two a minute, on a
    client made healthy first; the first call has settled before the
    third comes. *)
Definition burstSchedule : list (Z * Turn) :=
  [ (1700000000000, ClientTurn (LoopProbeSettles true));
    (1700000000100, ClientTurn (Invoke 1 noKey));
    (1700000000200, ClientTurn (RetrySettles 1 (λ _, Completion (Some "pong"))));
    (1700000000300, StreamInvoke 1 (λ _, None));
    (1700000000400, StreamOver 1 {| chunks := [Some "po"; Some "ng"]; failure := None |});
    (1700000000500, ClientTurn (Invoke 2 noKey)) ].

(** The set of active requests is the set of identifiers of the waiting
    calls, which are all different. *)
Definition tracked (st : McpServer.state) : Prop :=
  Server.activeRequests (McpServer.core st) = list_to_set (McpServer.handlers st).*1 ∧
  NoDup (McpServer.handlers st).*1.

(** What the shutdown has reached: nothing before a signal, when the
    process can only have exited because [start] failed; an empty set once
    a run of [gracefulShutdown] has left its loop; exit codes 0 and 1
    only. *)
Definition orderly (st : McpServer.state) : Prop :=
  (Server.isShuttingDown (McpServer.core st) = false →
   McpServer.drainLoops st = 0%nat ∧ McpServer.closing st = 0%nat ∧
   McpServer.forceTimers st = 0%nat ∧
   (McpServer.exited st = None
    ∨ McpServer.exited st = Some 1 ∧ McpServer.connecting st = true)) ∧
  ((0 < McpServer.closing st)%nat ∨ McpServer.exited st = Some 0 → Server.activeRequests (McpServer.core st) = ∅) ∧
  (∀ c, McpServer.exited st = Some c → c = 0 ∨ c = 1).

(** A turn that leaves the shutdown where it is and adds no call. *)
Definition shrinks (st st' : McpServer.state) : Prop :=
  Server.isShuttingDown (McpServer.core st') = Server.isShuttingDown (McpServer.core st) ∧
  McpServer.connecting st' = McpServer.connecting st ∧
  McpServer.drainLoops st' = McpServer.drainLoops st ∧
  McpServer.closing st' = McpServer.closing st ∧
  McpServer.forceTimers st' = McpServer.forceTimers st ∧
  McpServer.exited st' = McpServer.exited st ∧
  Server.activeRequests (McpServer.core st') ⊆ Server.activeRequests (McpServer.core st).

(** A call that arrives and whose handler is left waiting. *)
Definition starts (requestId : string) (st st' : McpServer.state) : Prop :=
  Server.isShuttingDown (McpServer.core st') = Server.isShuttingDown (McpServer.core st) ∧
  McpServer.connecting st' = McpServer.connecting st ∧
  McpServer.drainLoops st' = McpServer.drainLoops st ∧
  McpServer.closing st' = McpServer.closing st ∧
  McpServer.forceTimers st' = McpServer.forceTimers st ∧
  McpServer.exited st' = McpServer.exited st ∧
  Server.activeRequests (McpServer.core st') = {[requestId]} ∪ Server.activeRequests (McpServer.core st) ∧
  ∃ h, McpServer.handlers st' = McpServer.handlers st ++ [(requestId, h)].

(** The server connects and the client becomes healthy; a call starts, a
    second one starts, the first is answered, the signal comes, a third
    call is refused, the request of the second fails, the loop wakes, the
    transport closes. *)
Definition drainSchedule : list (McpServer.Event unit) :=
  [ McpServer.Connected;
    McpServer.LoopProbeSettles 1700000000000 true;
    McpServer.ToolCall 1700000001000 "a" "summarize" None (McpServer.CallsComplete "3f5a");
    McpServer.ToolCall 1700000001100 "b" "extract_tags" (Some tt)
      (McpServer.CallsComplete "9c1e");
    McpServer.RetrySettles 1700000002000 "a" (λ _, Completion (Some "short"));
    McpServer.Signal;
    McpServer.ToolCall 1700000002500 "c" "summarize" None (McpServer.CallsComplete "3f5a");
    McpServer.DrainPoll;
    McpServer.RetrySettles 1700000003200 "b" (λ _, ApiError programError);
    McpServer.DrainPoll;
    McpServer.TransportClosed ].

(** * Properties *)

(** ** Admission *)

Section Admission.
Variable config : Config.

Abbreviation R := (rateLimit_maxRequestsPerMinute config).
Abbreviation N := (rateLimit_maxConcurrent config).

Lemma enforceRateLimit_disabled now s :
  rateLimit_enabled config = false →
  enforceRateLimit config now s = (s, Ok tt).
Proof. intros H. unfold enforceRateLimit. by rewrite H. Qed.

Lemma enforceRateLimit_rate now s :
  rateLimit_enabled config = true →
  R ≤ Z.of_nat (length (pruneWindow now (requestTimestamps s))) →
  enforceRateLimit config now s =
    (with_requestTimestamps (pruneWindow now (requestTimestamps s)) s,
     Throw RateLimitExceeded).
Proof.
  intros He Hlen. unfold enforceRateLimit. rewrite He. cbn.
  by rewrite bool_decide_eq_true_2.
Qed.

Lemma enforceRateLimit_concurrent now s :
  rateLimit_enabled config = true →
  Z.of_nat (length (pruneWindow now (requestTimestamps s))) < R →
  N ≤ activeRequests s →
  enforceRateLimit config now s =
    (with_requestTimestamps (pruneWindow now (requestTimestamps s)) s,
     Throw TooManyConcurrent).
Proof.
  intros He Hlen Hact. unfold enforceRateLimit. rewrite He. cbn.
  rewrite bool_decide_eq_false_2 by lia.
  by rewrite bool_decide_eq_true_2.
Qed.

Lemma enforceRateLimit_passes now s :
  rateLimit_enabled config = true →
  Z.of_nat (length (pruneWindow now (requestTimestamps s))) < R →
  activeRequests s < N →
  enforceRateLimit config now s =
    (with_requestTimestamps (pruneWindow now (requestTimestamps s) ++ [now]) s,
     Ok tt).
Proof.
  intros He Hlen Hact. unfold enforceRateLimit. rewrite He. cbn.
  rewrite bool_decide_eq_false_2 by lia.
  by rewrite bool_decide_eq_false_2 by lia.
Qed.

(** The gate writes the window and nothing else. *)
Lemma enforceRateLimit_sameCounters now s :
  sameCounters s (enforceRateLimit config now s).1.
Proof.
  unfold enforceRateLimit, sameCounters.
  destruct (rateLimit_enabled config); cbn; [|done].
  repeat case_bool_decide; done.
Qed.

(** The gate throws one of its own two errors. *)
Lemma enforceRateLimit_Throw now s e :
  (enforceRateLimit config now s).2 = Throw e →
  e = RateLimitExceeded ∨ e = TooManyConcurrent.
Proof.
  unfold enforceRateLimit.
  destruct (rateLimit_enabled config); cbn; [|done].
  repeat case_bool_decide; cbn; intros [= <-]; auto.
Qed.

(** A rejection records no timestamp; an admission records [now]. *)
Lemma enforceRateLimit_window now s :
  rateLimit_enabled config = true →
  requestTimestamps (enforceRateLimit config now s).1 =
    match (enforceRateLimit config now s).2 with
    | Ok _ => pruneWindow now (requestTimestamps s) ++ [now]
    | Throw _ => pruneWindow now (requestTimestamps s)
    end.
Proof.
  intros He. unfold enforceRateLimit. rewrite He. cbn.
  repeat case_bool_decide; done.
Qed.

End Admission.

(** A timestamp inside the window survives the pruning. *)
Lemma pruneWindow_all now l :
  (∀ x, x ∈ l → now - 60000 < x) → pruneWindow now l = l.
Proof.
  unfold pruneWindow. induction l as [|a l IH]; intros H; [done|].
  rewrite filter_cons_True by (apply H; left).
  f_equal. apply IH. intros x Hx. apply H. by right.
Qed.

(** A timestamp that has aged out makes the window shorter. *)
Lemma pruneWindow_shrinks now l x :
  x ∈ l → x ≤ now - 60000 →
  (length (pruneWindow now l) < length l)%nat.
Proof.
  intros Hx Hold. unfold pruneWindow.
  apply (length_filter_lt _ _ x); [done | lia].
Qed.

(** Pruning at a later instant subsumes pruning at an earlier one. *)
Lemma pruneWindow_later now now' l :
  now ≤ now' → pruneWindow now' (pruneWindow now l) = pruneWindow now' l.
Proof.
  intros Hle. unfold pruneWindow. induction l as [|a l IH]; [done|].
  destruct (decide (now - 60000 < a)) as [Ha|Ha].
  - rewrite (filter_cons_True (λ ts, now - 60000 < ts)) by done.
    destruct (decide (now' - 60000 < a)).
    + rewrite !filter_cons_True by done. by rewrite IH.
    + rewrite !filter_cons_False by done. done.
  - rewrite (filter_cons_False (λ ts, now - 60000 < ts)) by done.
    rewrite (filter_cons_False (λ ts, now' - 60000 < ts)) by lia. done.
Qed.

(** From a window within the bound, attempts that keep within the bound
    and come while all timestamps are less than 60 seconds old all pass,
    and each is recorded: so a window fills up to the bound. *)
Lemma window_fills (config : Config) (times : list Z) (s : LMStudioClient) :
  rateLimit_enabled config = true →
  activeRequests s < rateLimit_maxConcurrent config →
  Z.of_nat (length (requestTimestamps s) + length times)
    ≤ rateLimit_maxRequestsPerMinute config →
  (∀ x t, x ∈ requestTimestamps s ++ times → t ∈ times → t - 60000 < x) →
  enforceEach config times s =
    (replicate (length times) (Ok tt),
     with_requestTimestamps (requestTimestamps s ++ times) s).
Proof.
  intros Hen. revert s.
  induction times as [|t times IH]; intros s Hact Hlen Hwin; cbn.
  - rewrite app_nil_r. by destruct s.
  - assert (Hkeep : pruneWindow t (requestTimestamps s) = requestTimestamps s).
    { apply pruneWindow_all. intros x Hx.
      apply Hwin; [apply elem_of_app; by left | by left]. }
    rewrite enforceRateLimit_passes; [|done|rewrite Hkeep; cbn in Hlen; lia|done].
    cbn. rewrite Hkeep. rewrite IH; cbn.
    + by rewrite <- app_assoc.
    + done.
    + rewrite length_app. cbn in *. lia.
    + intros x t' Hx Ht'. apply Hwin; [|by right].
      rewrite <- app_assoc in Hx. done.
Qed.

(** C8: with rate limiting on and a window that holds R admissions, all
    inside the trailing 60 seconds at [now], the next attempt is rejected
    with the rate-limit error and records nothing; once one of those
    timestamps (so the oldest one) is 60 seconds old or more at [now'],
    the attempt made then prunes it and is admitted, as long as the
    concurrency bound is not reached. *)
Theorem C8_rate_window (config : Config) (s : LMStudioClient) (now : Z) :
  rateLimit_enabled config = true →
  Z.of_nat (length (requestTimestamps s)) = rateLimit_maxRequestsPerMinute config →
  Forall (λ x, now - 60000 < x) (requestTimestamps s) →
  let rejected := enforceRateLimit config now s in
  rejected.2 = Throw RateLimitExceeded ∧
  requestTimestamps rejected.1 = requestTimestamps s ∧
  ∀ now' oldest,
    oldest ∈ requestTimestamps s →
    oldest ≤ now' - 60000 →
    activeRequests s < rateLimit_maxConcurrent config →
    let passed := enforceRateLimit config now' rejected.1 in
    passed.2 = Ok tt ∧
    (oldest ∉ requestTimestamps passed.1) ∧
    requestTimestamps passed.1 = pruneWindow now' (requestTimestamps s) ++ [now'].
Proof.
  intros He Hlen Hin rejected. rewrite Forall_forall in Hin.
  assert (Hrej : rejected =
            (with_requestTimestamps (requestTimestamps s) s, Throw RateLimitExceeded)).
  { subst rejected. rewrite enforceRateLimit_rate; [|done|].
    - by rewrite pruneWindow_all.
    - rewrite pruneWindow_all by done. lia. }
  rewrite Hrej. cbn. split; [done|]. split; [done|].
  intros now' oldest Hold Hage Hact.
  pose proof (pruneWindow_shrinks now' _ oldest Hold Hage) as Hshort.
  rewrite enforceRateLimit_passes; cbn; [|done|lia|done].
  split; [done|]. split; [|done].
  rewrite elem_of_app, list_elem_of_singleton. unfold pruneWindow.
  rewrite list_elem_of_filter. lia.
Qed.

Lemma C8_rate_window_witness :
  (enforceRateLimit smallConfig 3000 busyClient).2 = Throw RateLimitExceeded ∧
  (enforceRateLimit smallConfig 61000
     (enforceRateLimit smallConfig 3000 busyClient).1).2 = Ok tt.
Proof.
  destruct (C8_rate_window smallConfig busyClient 3000) as (Hrej & _ & Hadm).
  - reflexivity.
  - reflexivity.
  - repeat constructor.
  - split; [exact Hrej|].
    apply (Hadm 61000 1000); [left | reflexivity | reflexivity].
Defined.

(** ** The cache hit *)

(** Lines 101-102 on a key that is set and holds a live value: the lookup
    yields the value and leaves the client as it was. *)
Lemma cacheGet_live (config : Config) (now : Z) (opts : Options)
    (s : LMStudioClient) (key value : string) :
  cache_enabled config = true →
  cacheKey opts = Some key →
  key ≠ "" →
  (NodeCache.get now key (cache s)).1 = Some value →
  cacheGet config now opts s = (Some value, s).
Proof.
  intros Hen Hkey Hne Hget.
  unfold cacheGet, cachingKey. rewrite Hen, Hkey. cbn.
  rewrite (proj2 (String.eqb_neq key "")) by done. cbn.
  unfold NodeCache.get in *.
  destruct (NodeCache.data (cache s) !! key) as [e|]; [|done].
  destruct (NodeCache.live now e); [|done].
  cbn in Hget. injection Hget as ->. by destruct s as [[]].
Qed.

(** X24. With caching on and a non-empty key under which the cache holds
    a live, non-empty value (the guards of lines 101 and 103), [complete]
    returns that value at once; it adds one to [totalRequests] and leaves
    everything else as it was: no timestamp is pruned or recorded, no probe
    and no completion request is issued, and the active count, the error
    count, the health state and the cache are unchanged. *)
Theorem nonempty_hit_served (config : Config) (now : Z) (opts : Options) (w : World)
    (key value : string) :
  cache_enabled config = true →
  cacheKey opts = Some key →
  key ≠ "" →
  (NodeCache.get now key (cache (client w))).1 = Some value →
  value ≠ "" →
  let r := complete_enter config now opts w in
  r.2 = Returned value ∧
  r.1 = with_client (with_totalRequests (totalRequests (client w) + 1) (client w)) w ∧
  totalRequests (client r.1) = totalRequests (client w) + 1 ∧
  activeRequests (client r.1) = activeRequests (client w) ∧
  requestTimestamps (client r.1) = requestTimestamps (client w) ∧
  totalErrors (client r.1) = totalErrors (client w) ∧
  modelsListCalls r.1 = modelsListCalls w ∧
  chatCompletionCalls r.1 = chatCompletionCalls w.
Proof.
  intros Hen Hkey Hne Hget Hval r. subst r.
  unfold complete_enter.
  rewrite (cacheGet_live config now opts (client w) key value) by done.
  cbn. rewrite (proj2 (String.eqb_neq value "")) by done. cbn.
  repeat split; done.
Qed.

Lemma nonempty_hit_served_witness :
  (complete_enter smallConfig 3000 keyK warmWorld).2
    = Returned "pong" ∧
  totalRequests
    (client (complete_enter smallConfig 3000 keyK warmWorld).1)
    = 3.
Proof.
  destruct (nonempty_hit_served smallConfig 3000 keyK warmWorld
              "k" "pong") as (Hret & _ & Htot & _).
  - reflexivity.
  - reflexivity.
  - discriminate.
  - reflexivity.
  - discriminate.
  - split; [exact Hret | exact Htot].
Defined.

(** ** Rejection at the gate *)

(** The specification has a call rejected at the gate add one to
    [totalRequests]. On a full window the call is rejected and the counter
    stays where it was. *)
Lemma C3_rejection_not_counted :
  let r := complete_enter smallConfig 3000 noKey busyWorld in
  r.2 = Thrown RateLimitExceeded ∧
  totalRequests (client r.1) ≠ totalRequests (client busyWorld) + 1.
Proof. split; [reflexivity | discriminate]. Qed.

(** C3 (amended): a call of [complete] that misses the cache and is
    rejected by [enforceRateLimit] throws that rejection, which is one of
    the gate's two errors and differs from the unavailable and the
    timed-out error; [totalRequests], [totalErrors] and the active count
    are all left unchanged. *)
Theorem C3_rejected_at_gate (config : Config) (now : Z) (opts : Options)
    (w : World) (e : JsError) :
  truthy (cacheGet config now opts (client w)).1 = false →
  (enforceRateLimit config now (cacheGet config now opts (client w)).2).2 = Throw e →
  let r := complete_enter config now opts w in
  r.2 = Thrown e ∧
  (e = RateLimitExceeded ∨ e = TooManyConcurrent) ∧
  e ≠ NotResponding ∧ e ≠ RequestTimedOut config ∧
  totalRequests (client r.1) = totalRequests (client w) ∧
  totalErrors (client r.1) = totalErrors (client w) ∧
  activeRequests (client r.1) = activeRequests (client w).
Proof.
  intros Hmiss Hrej r. subst r. unfold complete_enter.
  pose proof (enforceRateLimit_Throw _ _ _ _ Hrej) as He.
  pose proof (enforceRateLimit_sameCounters config now
                (cacheGet config now opts (client w)).2) as Hsame.
  destruct (cacheGet config now opts (client w)) as [cached s0] eqn:Hc.
  cbn in *. rewrite Hmiss.
  destruct (enforceRateLimit config now s0) as [s1 res]. cbn in *. subst res. cbn.
  assert (Hs0 : totalRequests s0 = totalRequests (client w) ∧
                totalErrors s0 = totalErrors (client w) ∧
                activeRequests s0 = activeRequests (client w)).
  { unfold cacheGet in Hc. destruct (cachingKey config opts).
    - destruct (NodeCache.get now s (cache (client w))). by injection Hc as _ <-.
    - by injection Hc as _ <-. }
  destruct Hsame as (_ & _ & _ & Ha & Ht & Herr).
  split; [done|]. split; [done|].
  split; [destruct He as [->| ->]; discriminate|].
  split.
  { unfold RequestTimedOut, newError. intros ->.
    destruct He as [He|He]; by injection He. }
  lia.
Qed.

Lemma C3_rejected_at_gate_witness :
  (complete_enter smallConfig 3000 noKey busyWorld).2
    = Thrown RateLimitExceeded ∧
  totalRequests (client (complete_enter smallConfig 3000 noKey busyWorld).1)
    = 2.
Proof.
  destruct (C3_rejected_at_gate smallConfig 3000 noKey
              busyWorld RateLimitExceeded) as (Hthrown & _ & _ & _ & Htot & _).
  - reflexivity.
  - reflexivity.
  - split; [exact Hthrown | exact Htot].
Defined.

(** ** The health gate *)

Lemma with_isHealthy_id b s : isHealthy s = b → with_isHealthy b s = s.
Proof. intros <-. by destruct s. Qed.

(** The lookup writes the cache and nothing else. *)
Lemma cacheGet_fields config now opts s :
  let s0 := (cacheGet config now opts s).2 in
  isHealthy s0 = isHealthy s ∧ lastHealthCheck s0 = lastHealthCheck s ∧
  activeRequests s0 = activeRequests s ∧ totalRequests s0 = totalRequests s ∧
  totalErrors s0 = totalErrors s ∧ requestTimestamps s0 = requestTimestamps s.
Proof.
  unfold cacheGet. destruct (cachingKey config opts) as [key|]; [|done].
  by destruct (NodeCache.get now key (cache s)).
Qed.

(** [complete] past the cache and the gate. *)
Lemma complete_enter_past_gate config now opts w :
  truthy (cacheGet config now opts (client w)).1 = false →
  (enforceRateLimit config now (cacheGet config now opts (client w)).2).2 = Ok tt →
  let s1 := (enforceRateLimit config now (cacheGet config now opts (client w)).2).1 in
  complete_enter config now opts w =
    if negb (isHealthy s1) && bool_decide (10000 < now - lastHealthCheck s1)
    then (checkHealth_begin (with_client s1 w), Suspended AwaitCheckHealth)
    else complete_dispatch now (with_client s1 w).
Proof.
  intros Hmiss Hok. unfold complete_enter.
  destruct (cacheGet config now opts (client w)) as [cached s0]. cbn in *.
  rewrite Hmiss.
  destruct (enforceRateLimit config now s0) as [s1 res]. cbn in *. by subst res.
Qed.

(** Whatever ran in between, a call that reaches line 118 throws the
    unavailable error exactly when the flag is down, and starts no probe. *)
Lemma complete_dispatch_unavailable now w :
  ((complete_dispatch now w).2 = Thrown NotResponding ↔ isHealthy (client w) = false) ∧
  ((complete_dispatch now w).2 = Suspended (AwaitRetry now) ↔ isHealthy (client w) = true) ∧
  modelsListCalls (complete_dispatch now w).1 = modelsListCalls w.
Proof.
  unfold complete_dispatch. destruct (isHealthy (client w)); cbn; naive_solver.
Qed.

(** C4: a call of [complete] that misses the cache and passes the gate
    while the flag is down (as it is from construction on) and the last
    recorded check is more than 10 seconds old suspends on one probe: the
    count of [models.list()] calls goes up by one. When the probe settles
    the flag is what the probe found, and the resumed call issues no
    further probe and throws the unavailable error if and only if the flag
    is still down; otherwise it goes on to the request. *)
Theorem C4_stale_reprobe (config : Config) (now : Z) (opts : Options) (w : World) :
  truthy (cacheGet config now opts (client w)).1 = false →
  (enforceRateLimit config now (cacheGet config now opts (client w)).2).2 = Ok tt →
  isHealthy (client w) = false →
  10000 < now - lastHealthCheck (client w) →
  let r := complete_enter config now opts w in
  r.2 = Suspended AwaitCheckHealth ∧
  modelsListCalls r.1 = S (modelsListCalls w) ∧
  ∀ (t1 : Z) (ok : bool),
    let probed := complete_probed t1 ok r.1 in
    let resumed := complete_dispatch t1 probed.1 in
    isHealthy (client probed.1) = ok ∧
    modelsListCalls resumed.1 = S (modelsListCalls w) ∧
    (resumed.2 = Thrown NotResponding ↔ isHealthy (client probed.1) = false) ∧
    (resumed.2 = Suspended (AwaitRetry t1) ↔ isHealthy (client probed.1) = true).
Proof.
  intros Hmiss Hok Hdown Hstale r. subst r.
  rewrite complete_enter_past_gate by done.
  destruct (cacheGet_fields config now opts (client w)) as (Hh & Hl & _).
  destruct (enforceRateLimit_sameCounters config now
              (cacheGet config now opts (client w)).2) as (_ & Hh' & Hl' & _).
  rewrite Hh', Hl', Hh, Hl, Hdown. cbn.
  rewrite bool_decide_eq_true_2 by done. cbn.
  split; [done|]. split; [done|].
  intros t1 ok.
  match goal with
  | |- context [complete_dispatch t1 ?x] =>
      destruct (complete_dispatch_unavailable t1 x) as (Hu & Hr & Hm)
  end.
  split; [by destruct ok|].
  split; [by rewrite Hm|].
  split; [exact Hu | exact Hr].
Qed.

Lemma C4_stale_reprobe_witness :
  let r := complete_enter smallConfig 1700000000000 noKey
             (freshWorld smallConfig) in
  r.2 = Suspended AwaitCheckHealth ∧ modelsListCalls r.1 = 2%nat ∧
  ((complete_dispatch 1700000000040
      (complete_probed 1700000000040 false r.1).1).2 = Thrown NotResponding
   ↔ false = false).
Proof.
  destruct (C4_stale_reprobe smallConfig 1700000000000 noKey
              (freshWorld smallConfig)) as (Hsusp & Hone & Hthen).
  - reflexivity.
  - reflexivity.
  - reflexivity.
  - reflexivity.
  - split; [exact Hsusp|]. split; [exact Hone|].
    destruct (Hthen 1700000000040 false) as (_ & _ & Hiff & _). exact Hiff.
Defined.

(** C10: a call of [complete], run on its own with rate limiting on, that
    misses the cache, passes the gate at [t0] and then meets a flag that is
    down (at once, or after a re-probe that failed) throws the unavailable
    error. The timestamp [t0] that the gate recorded stays in the window,
    and is counted by every admission check made less than 60 seconds
    later, which is rejected when that count reaches the bound;
    [totalRequests], [totalErrors] and the active count are unchanged. *)
Theorem C10_unavailable_keeps_timestamp (config : Config) (t0 t1 t2 : Z)
    (opts : Options) (ok : bool) (replies : nat → Reply) (w : World) :
  rateLimit_enabled config = true →
  truthy (cacheGet config t0 opts (client w)).1 = false →
  (enforceRateLimit config t0 (cacheGet config t0 opts (client w)).2).2 = Ok tt →
  isHealthy (client w) = false →
  (10000 < t0 - lastHealthCheck (client w) → ok = false) →
  let r := complete_alone config t0 t1 t2 opts ok replies w in
  r.2 = Thrown NotResponding ∧
  requestTimestamps (client r.1) = pruneWindow t0 (requestTimestamps (client w)) ++ [t0] ∧
  totalRequests (client r.1) = totalRequests (client w) ∧
  totalErrors (client r.1) = totalErrors (client w) ∧
  activeRequests (client r.1) = activeRequests (client w) ∧
  ∀ t' : Z, t0 ≤ t' → t' - 60000 < t0 →
    t0 ∈ pruneWindow t' (requestTimestamps (client r.1)) ∧
    length (pruneWindow t' (requestTimestamps (client r.1)))
      = S (length (pruneWindow t' (requestTimestamps (client w)))) ∧
    (rateLimit_maxRequestsPerMinute config
       ≤ Z.of_nat (S (length (pruneWindow t' (requestTimestamps (client w))))) →
     (enforceRateLimit config t' (client r.1)).2 = Throw RateLimitExceeded).
Proof.
  intros Hen Hmiss Hok Hdown Hprobe r.
  destruct (cacheGet_fields config t0 opts (client w))
    as (Hh & Hl & Ha & Ht & He & Hts).
  pose proof (enforceRateLimit_sameCounters config t0
                (cacheGet config t0 opts (client w)).2) as (_ & Hh' & Hl' & Ha' & Ht' & He').
  pose proof (enforceRateLimit_window config t0
                (cacheGet config t0 opts (client w)).2 Hen) as Hw.
  rewrite Hok, Hts in Hw.
  set (s1 := (enforceRateLimit config t0 (cacheGet config t0 opts (client w)).2).1) in *.
  assert (Hr : r.2 = Thrown NotResponding ∧ client r.1 = s1).
  { subst r. unfold complete_alone.
    rewrite complete_enter_past_gate by done. fold s1.
    rewrite Hh', Hl', Hh, Hl, Hdown. cbn.
    case_bool_decide as Hstale; cbn.
    - rewrite (Hprobe Hstale). cbn. split; [done|].
      apply with_isHealthy_id. congruence.
    - unfold complete_dispatch. cbn. by rewrite Hh', Hh, Hdown. }
  destruct Hr as [Hr2 Hr1]. rewrite Hr2, Hr1.
  split; [done|]. split; [done|].
  split; [congruence|]. split; [congruence|]. split; [congruence|].
  intros t' Hle Hin.
  assert (Hcount : pruneWindow t' (requestTimestamps s1)
                   = pruneWindow t' (requestTimestamps (client w)) ++ [t0]).
  { rewrite Hw. unfold pruneWindow at 1. rewrite filter_app.
    fold (pruneWindow t' (pruneWindow t0 (requestTimestamps (client w)))).
    rewrite pruneWindow_later by done.
    by rewrite filter_cons_True, filter_nil by done. }
  rewrite Hcount. split; [set_solver|].
  split; [rewrite length_app; cbn; lia|].
  intros Hfull.
  rewrite enforceRateLimit_rate; cbn; [done|done|].
  rewrite Hcount, length_app. cbn. lia.
Qed.

Lemma C10_unavailable_keeps_timestamp_witness :
  let r := complete_alone smallConfig 1700000000000 1700000000040 1700000000040
             noKey false (λ _, NoReply) (freshWorld smallConfig) in
  r.2 = Thrown NotResponding ∧
  requestTimestamps (client r.1) = [1700000000000] ∧
  totalRequests (client r.1) = 0 ∧
  totalErrors (client r.1) = 0 ∧
  activeRequests (client r.1) = 0.
Proof.
  destruct (C10_unavailable_keeps_timestamp smallConfig
              1700000000000 1700000000040 1700000000040
              noKey false (λ _, NoReply) (freshWorld smallConfig))
    as (Hthrown & Hts & Htot & Herr & Hact & _).
  - reflexivity.
  - reflexivity.
  - reflexivity.
  - reflexivity.
  - reflexivity.
  - exact (conj Hthrown (conj Hts (conj Htot (conj Herr Hact)))).
Defined.

(** ** Retrying *)

Section Retry.
Context {A : Type}.
Variable op : nat → Result A.

Abbreviation run := (PRetry.run op).

(** At least one attempt, and never more than one plus the waits. *)
Lemma run_attempts_bounds timeouts errors n :
  (1 ≤ PRetry.attempts (run timeouts errors n) ≤ S (length timeouts))%nat.
Proof.
  revert errors n. induction timeouts as [|t ts IH]; intros errors n; cbn.
  - destruct (op n) as [a|e]; cbn; [lia|]. destruct (nonNetworkTypeError e); cbn; lia.
  - destruct (op n) as [a|e]; cbn; [lia|].
    destruct (nonNetworkTypeError e); cbn; [lia|].
    specialize (IH (errors ++ [e]) (S n)). lia.
Qed.

(** One wait per retry, none before the first attempt: the waits made are
    the first of the list. *)
Lemma run_delays timeouts errors n :
  PRetry.delays (run timeouts errors n)
    = take (PRetry.attempts (run timeouts errors n) - 1) timeouts.
Proof.
  revert errors n. induction timeouts as [|t ts IH]; intros errors n; cbn.
  - destruct (op n) as [a|e]; cbn; [done|]. by destruct (nonNetworkTypeError e).
  - destruct (op n) as [a|e]; cbn; [done|].
    destruct (nonNetworkTypeError e); cbn; [done|].
    rewrite IH. pose proof (run_attempts_bounds ts (errors ++ [e]) (S n)) as Hb.
    rewrite Nat.sub_0_r.
    destruct (PRetry.attempts (run ts (errors ++ [e]) (S n))) as [|a]; [lia|].
    cbn. by rewrite Nat.sub_0_r.
Qed.


(** A success ends the run at once. *)
Lemma run_first_success timeouts errors n a :
  op n = Ok a →
  PRetry.attempts (run timeouts errors n) = 1%nat ∧
  PRetry.outcome (run timeouts errors n) = Ok a.
Proof. intros H. destruct timeouts; cbn; by rewrite H. Qed.

(** An error that is not retried ends it as well, and is the outcome. *)
Lemma run_not_retried timeouts errors n e :
  op n = Throw e → nonNetworkTypeError e = true →
  PRetry.attempts (run timeouts errors n) = 1%nat ∧
  PRetry.delays (run timeouts errors n) = [] ∧
  PRetry.outcome (run timeouts errors n) = Throw e.
Proof. intros H Hty. destruct timeouts; cbn; by rewrite H, Hty. Qed.

(** Failures that are retried, followed by a success within the waits:
    the run stops at the success. *)
Lemma run_success_after (errs : nat → JsError) (a : A) k : ∀ timeouts errors n,
  (k ≤ length timeouts)%nat →
  (∀ j, (n ≤ j < n + k)%nat →
        op j = Throw (errs j) ∧ nonNetworkTypeError (errs j) = false) →
  op (n + k)%nat = Ok a →
  PRetry.attempts (run timeouts errors n) = S k ∧
  PRetry.outcome (run timeouts errors n) = Ok a.
Proof.
  induction k as [|k IH]; intros timeouts errors n Hk Hfail Hok.
  - rewrite Nat.add_0_r in Hok. by apply run_first_success.
  - destruct timeouts as [|t ts]; [cbn in Hk; lia|]. cbn.
    destruct (Hfail n) as [-> ->]; [lia|]. cbn.
    destruct (IH ts (errors ++ [errs n]) (S n)) as [Ha Ho].
    + cbn in Hk. lia.
    + intros j Hj. apply Hfail. lia.
    + rewrite <- Hok. f_equal. lia.
    + by rewrite Ha, Ho.
Qed.

(** Failures that are retried, followed by an error that is not: the
    run stops there. *)
Lemma run_stops_after (errs : nat → JsError) (e : JsError) k : ∀ timeouts errors n,
  (k ≤ length timeouts)%nat →
  (∀ j, (n ≤ j < n + k)%nat →
        op j = Throw (errs j) ∧ nonNetworkTypeError (errs j) = false) →
  op (n + k)%nat = Throw e → nonNetworkTypeError e = true →
  PRetry.attempts (run timeouts errors n) = S k ∧
  PRetry.outcome (run timeouts errors n) = Throw e.
Proof.
  induction k as [|k IH]; intros timeouts errors n Hk Hfail Hthrow Hty.
  - rewrite Nat.add_0_r in Hthrow.
    destruct (run_not_retried timeouts errors n e) as (? & _ & ?); done.
  - destruct timeouts as [|t ts]; [cbn in Hk; lia|]. cbn.
    destruct (Hfail n) as [-> ->]; [lia|]. cbn.
    destruct (IH ts (errors ++ [errs n]) (S n)) as [Ha Ho].
    + cbn in Hk. lia.
    + intros j Hj. apply Hfail. lia.
    + rewrite <- Hthrow. f_equal. lia.
    + done.
    + by rewrite Ha, Ho.
Qed.

Variables retries minTimeout maxTimeout : Z.

Abbreviation pRetry := (PRetry.pRetry op retries minTimeout maxTimeout).

(** Never more attempts than one plus the retries; at least one unless
    the waits are refused. *)
Lemma pRetry_attempts_bounds :
  (PRetry.attempts pRetry ≤ S (Z.to_nat retries))%nat ∧
  (minTimeout ≤ maxTimeout → (1 ≤ PRetry.attempts pRetry)%nat).
Proof.
  unfold PRetry.pRetry. case_bool_decide; cbn; [split; lia|].
  pose proof (run_attempts_bounds
                (PRetry.timeouts (Z.to_nat retries) minTimeout maxTimeout) [] 1) as Hb.
  assert (Hlen : length (PRetry.timeouts (Z.to_nat retries) minTimeout maxTimeout)
                 = Z.to_nat retries).
  { unfold PRetry.timeouts. by rewrite length_fmap, length_seq. }
  rewrite Hlen in Hb. split; lia.
Qed.

(** A value comes from an attempt. *)
Lemma pRetry_Ok_attempts a :
  PRetry.outcome pRetry = Ok a → (1 ≤ PRetry.attempts pRetry)%nat.
Proof.
  unfold PRetry.pRetry. case_bool_decide; cbn; [done|]. intros _.
  apply run_attempts_bounds.
Qed.

(** The wait after attempt [k] is [createTimeout (k - 1)]. *)
Lemma pRetry_delays :
  PRetry.delays pRetry =
    (λ k, PRetry.createTimeout minTimeout maxTimeout (k - 1)) <$>
      seq 1 (PRetry.attempts pRetry - 1).
Proof.
  pose proof pRetry_attempts_bounds as [Hle _]. revert Hle.
  unfold PRetry.pRetry. case_bool_decide; cbn; [done|]. intros Hle.
  rewrite run_delays.
  set (m := (PRetry.attempts _ - 1)%nat) in *.
  assert (Hm : (m ≤ Z.to_nat retries)%nat) by lia.
  unfold PRetry.timeouts. rewrite <- fmap_take.
  rewrite take_seq, Nat.min_l by done.
  rewrite <- (fmap_S_seq 0), <- list_fmap_compose.
  apply list_fmap_ext. intros _ k _. cbn. by rewrite Nat.sub_0_r.
Qed.

End Retry.

(** The waits of [retry.timeouts] come out in ascending order, so that
    sorting them changes nothing. *)
Lemma timeouts_ascending (retries : nat) (minTimeout maxTimeout : Z) (i : nat) (a b : Z) :
  PRetry.timeouts retries minTimeout maxTimeout !! i = Some a →
  PRetry.timeouts retries minTimeout maxTimeout !! S i = Some b →
  a ≤ b.
Proof.
  unfold PRetry.timeouts. rewrite !list_lookup_fmap.
  intros (k & Hk & ->)%fmap_Some (k' & Hk' & ->)%fmap_Some.
  apply lookup_seq in Hk as [-> _]. apply lookup_seq in Hk' as [-> _].
  unfold PRetry.createTimeout. cbn [Nat.add].
  assert (2 ^ Z.of_nat i ≤ 2 ^ Z.of_nat (S i)) by (apply Z.pow_le_mono_r; lia).
  assert (0 < 2 ^ Z.of_nat i) by (apply Z.pow_pos_nonneg; lia).
  nia.
Qed.

(** Below [2 ^ 53] a number is printed digit by digit. *)
Lemma numberToString_safe (z : Z) :
  0 ≤ z < 2 ^ 53 → numberToString z = pretty z.
Proof.
  intros Hz. unfold numberToString, positiveToString, toDouble.
  rewrite (proj2 (Z.ltb_ge z 0)) by lia.
  rewrite bool_decide_false by (assert (2 ^ 54 ≤ 2 ^ 1024 - 2 ^ 970) by (vm_compute; discriminate); lia).
  cbv zeta. by rewrite !(proj2 (Z.ltb_lt z (2 ^ 53))) by lia.
Qed.




(** *** The failure that is surfaced *)









(** ** Serving from the cache *)

(** After a call under [key] has settled with a non-empty text, a call
    under the same key within the TTL returns that text and asks the
    endpoint nothing. *)
Lemma second_call_served (config : Config) (t2 t3 : Z) (key text : string)
    (r : PRetry.Run (option string)) (w : World) :
  cache_enabled config = true →
  key ≠ "" → text ≠ "" →
  PRetry.outcome r = Ok (Some text) →
  t3 ≤ t2 + cache_ttl config * 1000 →
  let opts := {| cacheKey := Some key |} in
  let first := complete_settle config t2 opts r w in
  let second := complete_enter config t3 opts first.1 in
  first.2 = Returned text ∧ second.2 = Returned text ∧
  chatCompletionCalls second.1 = chatCompletionCalls first.1.
Proof.
  intros Hen Hkey Htext Hr Httl opts first second.
  assert (Hfirst : first.2 = Returned text).
  { subst first. unfold complete_settle. by rewrite Hr. }
  split; [done|].
  assert (Hget : (NodeCache.get t3 key (cache (client first.1))).1 = Some text).
  { subst first. unfold complete_settle. rewrite Hr. cbn.
    unfold cachingKey. rewrite Hen. cbn.
    rewrite (proj2 (String.eqb_neq key "")) by done. cbn.
    unfold NodeCache.get. cbn. rewrite lookup_insert_eq.
    unfold NodeCache.live. cbn.
    destruct (bool_decide (cache_ttl config = 0)).
    - done.
    - rewrite (bool_decide_eq_false_2 (_ < t3)) by lia.
      by rewrite andb_false_r. }
  subst second. unfold complete_enter.
  rewrite (cacheGet_live config t3 opts (client first.1) key text) by done.
  cbn. rewrite (proj2 (String.eqb_neq text "")) by done. done.
Qed.

(** A stored empty text is a miss for [complete], whatever the key. *)
Lemma empty_entry_is_a_miss (config : Config) (now : Z) (opts : Options)
    (s : LMStudioClient) (key : string) :
  cacheKey opts = Some key →
  (NodeCache.get now key (cache s)).1 = Some "" →
  truthy (cacheGet config now opts s).1 = false.
Proof.
  intros Hkey Hget. unfold cacheGet, cachingKey. rewrite Hkey.
  destruct (cache_enabled config && truthy (Some key)); [|done].
  destruct (NodeCache.get now key (cache s)) as [cached c]. cbn in *.
  by subst cached.
Qed.

(** C5: at the empty text the code does not do what the claim says. The
    first call succeeds and stores [""] under ["k"]; half a second later
    the entry is live in the cache, yet the second call under ["k"] is not
    served from it: it passes the gate and goes to the endpoint, which has
    answered two requests when both calls have returned. *)
Theorem C5_empty_text_fetched_twice :
  let mid := run defaultConfig (take 4 emptyTextSchedule) (newSystem defaultConfig) in
  let final := run defaultConfig emptyTextSchedule (newSystem defaultConfig) in
  callState mid 1 = Some (Returned "") ∧
  (NodeCache.get 1700000002000 "k" (cache (client (world mid)))).1 = Some "" ∧
  callState mid 2 = Some (Suspended (AwaitRetry 1700000002000)) ∧
  callState final 2 = Some (Returned "") ∧
  chatCompletionCalls (world final) = 2%nat.
Proof. vm_compute. done. Qed.

(** C7: at a live entry that holds the empty text the code does not do
    what the claim says. The first call has stored [""] under ["k"] and
    two admissions are on record. The lookup of the third call, under
    ["k"], finds the live entry, yet the call is not answered from it: it
    goes on to the gate, which rejects it because the window is full, and
    [totalRequests] is not increased. *)
Theorem C7_empty_hit_runs_the_gate :
  let mid := run smallConfig (take 5 emptyHitSchedule) (newSystem smallConfig) in
  let final := run smallConfig emptyHitSchedule (newSystem smallConfig) in
  (NodeCache.get 1700000003000 "k" (cache (client (world mid)))).1 = Some "" ∧
  callState final 3 = Some (Thrown RateLimitExceeded) ∧
  totalRequests (client (world final)) = totalRequests (client (world mid)) ∧
  requestTimestamps (client (world mid)) = [1700000001000; 1700000002000].
Proof. vm_compute. done. Qed.

(** ** Shutdown *)

(** The specification has [shutdown] set the shutdown flag and stop the
    periodic probe. After [shutdown] on a new server the flag is still
    down, the interval is still armed, and its next tick issues a probe. *)
Lemma C9_shutdown_sets_no_flag :
  let srv := Server.clientShutdown defaultConfig
               (Server.create (freshWorld defaultConfig)) in
  let sys := step defaultConfig 1700000001000 Shutdown (newSystem defaultConfig) in
  Server.isShuttingDown srv = false ∧
  healthInterval (Server.lmStudioClient srv) = true ∧
  modelsListCalls (world sys) = 1%nat ∧
  modelsListCalls (world (step defaultConfig 1700000060000 IntervalFires sys)) = 2%nat.
Proof. vm_compute. done. Qed.

(** C9 (amended): [shutdown] is idempotent and cannot fail. Each run
    empties the cache and disarms the cache's sweep timer, whatever the
    active count is, and changes nothing else: the active count, the other
    counters, the health state and the window stay as they were, the
    interval of the health loop stays as it was, and the server's
    [isShuttingDown] flag, which only the signal handler sets, is not
    touched. *)
Theorem C9_shutdown_idempotent (config : Config) (w : World) (srv : Server.state) :
  let w' := shutdown config w in
  shutdown config w' = w' ∧
  NodeCache.data (cache (client w')) = ∅ ∧
  NodeCache.keys (cache (client w')) = [] ∧
  NodeCache.checkTimer (cache (client w')) = false ∧
  activeRequests (client w') = activeRequests (client w) ∧
  totalRequests (client w') = totalRequests (client w) ∧
  totalErrors (client w') = totalErrors (client w) ∧
  isHealthy (client w') = isHealthy (client w) ∧
  lastHealthCheck (client w') = lastHealthCheck (client w) ∧
  requestTimestamps (client w') = requestTimestamps (client w) ∧
  healthInterval w' = healthInterval w ∧
  modelsListCalls w' = modelsListCalls w ∧
  chatCompletionCalls w' = chatCompletionCalls w ∧
  Server.isShuttingDown (Server.clientShutdown config srv) = Server.isShuttingDown srv ∧
  Server.isShuttingDown (Server.gracefulShutdown_begin srv) = true.
Proof.
  cbn. unfold shutdown, NodeCache.keys. cbn.
  rewrite map_to_list_empty. done.
Qed.

(** ** The concurrency bound *)

(** C1: with a bound of one concurrent call the code lets two calls in.
    Both pass the gate while the active count is still 0, because the
    count is only raised after the re-probe for which they suspend; when
    they resume both raise it, and it stands at 2 with both requests
    in progress. *)
Theorem C1_bound_exceeded_after_reprobe :
  let sys := run smallConfig raceSchedule (newSystem smallConfig) in
  rateLimit_enabled smallConfig = true ∧
  rateLimit_maxConcurrent smallConfig = 1 ∧
  callState sys 1 = Some (Suspended (AwaitRetry 1700000000040)) ∧
  callState sys 2 = Some (Suspended (AwaitRetry 1700000000041)) ∧
  activeRequests (client (world sys)) = 2.
Proof. vm_compute. done. Qed.

(** Where no call resumes from a re-probe, the bound holds. *)
Section Bound.
Variable config : Config.
Hypothesis enabled : rateLimit_enabled config = true.

Abbreviation N := (rateLimit_maxConcurrent config).

Lemma complete_enter_bound now opts w :
  activeRequests (client w) ≤ N →
  activeRequests (client (complete_enter config now opts w).1) ≤ N.
Proof.
  intros Hle. unfold complete_enter.
  destruct (cacheGet_fields config now opts (client w)) as (_ & _ & Ha & _).
  destruct (cacheGet config now opts (client w)) as [cached s0]. cbn in Ha.
  destruct (truthy cached); cbn; [lia|].
  unfold enforceRateLimit. rewrite enabled. cbn.
  repeat case_bool_decide; cbn; try lia;
    unfold complete_dispatch; cbn; destruct (isHealthy s0); cbn; lia.
Qed.

Lemma complete_settle_release now opts r w :
  activeRequests (client (complete_settle config now opts r w).1)
    = activeRequests (client w) - 1.
Proof.
  unfold complete_settle. destruct (PRetry.outcome r); cbn; [|done].
  by destruct (cachingKey config opts).
Qed.

Lemma step_bound now ev sys :
  isResume ev = false →
  activeRequests (client (world sys)) ≤ N →
  activeRequests (client (world (step config now ev sys))) ≤ N.
Proof.
  intros Hev Hle. destruct ev; cbn in *; try done.
  - destruct (calls sys !! id); cbn; [done|]. by apply complete_enter_bound.
  - destruct (calls sys !! id) as [[o [[]| |]]|]; cbn; try done.
    by destruct ok.
  - destruct (calls sys !! id) as [[o [[]| |]]|]; cbn; try done.
    rewrite complete_settle_release. lia.
  - by destruct (healthInterval (world sys)).
  - destruct (loopProbes sys); [done|]. by destruct ok.
  - by destruct (NodeCache.checkTimer _).
Qed.

(** The active count stays within the bound along every schedule in
    which no call resumes from a re-probe. *)
Lemma bound_without_reprobe schedule sys :
  Forall (λ te, isResume te.2 = false) schedule →
  activeRequests (client (world sys)) ≤ N →
  activeRequests (client (world (run config schedule sys))) ≤ N.
Proof.
  intros Hall. revert sys.
  induction Hall as [|[now ev] schedule Hev _ IH]; intros sys Hle; [done|].
  cbn. apply IH. by apply step_bound.
Qed.

(** At the bound, a call that misses the cache is rejected. *)
Lemma rejected_at_bound now opts w :
  truthy (cacheGet config now opts (client w)).1 = false →
  Z.of_nat (length (pruneWindow now (requestTimestamps (client w))))
    < rateLimit_maxRequestsPerMinute config →
  N ≤ activeRequests (client w) →
  (complete_enter config now opts w).2 = Thrown TooManyConcurrent.
Proof.
  intros Hmiss Hlen Hact.
  destruct (cacheGet_fields config now opts (client w)) as (_ & _ & Ha0 & _ & _ & Hts0).
  unfold complete_enter.
  destruct (cacheGet config now opts (client w)) as [cached s0].
  cbn in *. rewrite Hmiss.
  rewrite enforceRateLimit_concurrent; [done|done| |]; by rewrite ?Hts0, ?Ha0.
Qed.

(** Below it, on a healthy client with room in the window, the call is
    let through and takes a slot; [complete_settle_release] gives the
    slot back. *)
Lemma let_in_below_bound now opts w :
  truthy (cacheGet config now opts (client w)).1 = false →
  isHealthy (client w) = true →
  Z.of_nat (length (pruneWindow now (requestTimestamps (client w))))
    < rateLimit_maxRequestsPerMinute config →
  activeRequests (client w) < N →
  (complete_enter config now opts w).2 = Suspended (AwaitRetry now) ∧
  activeRequests (client (complete_enter config now opts w).1)
    = activeRequests (client w) + 1.
Proof.
  intros Hmiss Hh Hlen Hact.
  destruct (cacheGet_fields config now opts (client w)) as (Hh0 & _ & Ha0 & _ & _ & Hts0).
  unfold complete_enter.
  destruct (cacheGet config now opts (client w)) as [cached s0].
  cbn in *. rewrite Hmiss.
  rewrite enforceRateLimit_passes; [|done| |]; [|by rewrite ?Hts0, ?Ha0..].
  cbn. rewrite Hh0, Hh. cbn. unfold complete_dispatch. cbn.
  rewrite Hh0, Hh. cbn. split; [done | lia].
Qed.

End Bound.

(** ** The race, for every bound *)

Lemma run_app config l1 l2 sys :
  run config (l1 ++ l2) sys = run config l2 (run config l1 sys).
Proof. apply foldl_app. Qed.

Lemma pruneWindow_idemp now l :
  pruneWindow now (pruneWindow now l) = pruneWindow now l.
Proof. by apply pruneWindow_later. Qed.

Section Race.
Variable config : Config.
Hypothesis enabled : rateLimit_enabled config = true.
Hypothesis bound_positive : 0 < rateLimit_maxConcurrent config.

(** While the flag is down and the last check is stale, callers that find
    room in the window all pass the gate and wait for their re-probes; the
    active count stays at 0 meanwhile. *)
Lemma all_enter now ids : ∀ sys,
  NoDup ids →
  (∀ i, i ∈ ids → calls sys !! i = None) →
  isHealthy (client (world sys)) = false →
  10000 < now - lastHealthCheck (client (world sys)) →
  activeRequests (client (world sys)) = 0 →
  Z.of_nat (length (pruneWindow now (requestTimestamps (client (world sys))))
            + length ids) ≤ rateLimit_maxRequestsPerMinute config →
  let sys' := run config ((λ i, (now, Invoke i noKey)) <$> ids) sys in
  (∀ i, i ∈ ids → waiting sys' i) ∧
  (∀ j, j ∉ ids → calls sys' !! j = calls sys !! j) ∧
  activeRequests (client (world sys')) = 0.
Proof.
  induction ids as [|i ids IH]; intros sys Hnd Hfree Hdown Hstale Hact Hroom; cbn.
  { split; [intros i Hi; by apply elem_of_nil in Hi|done]. }
  apply NoDup_cons in Hnd as [Hi Hnd].
  rewrite (Hfree i) by left.
  assert (Henter : complete_enter config now noKey (world sys) =
            (checkHealth_begin
               (with_client
                  (with_requestTimestamps
                     (pruneWindow now (requestTimestamps (client (world sys))) ++ [now])
                     (client (world sys)))
                  (world sys)),
             Suspended AwaitCheckHealth)).
  { unfold complete_enter, cacheGet, cachingKey. cbn.
    rewrite andb_false_r. cbn.
    rewrite enforceRateLimit_passes by (done || cbn in Hroom; lia).
    cbn. rewrite Hdown. cbn. by rewrite bool_decide_eq_true_2. }
  rewrite Henter.
  match goal with |- context [foldl _ ?x _] => set (sys1 := x) end.
  destruct (IH sys1) as (Hwait & Hother & Hact').
  - done.
  - intros j Hj. subst sys1. unfold put. cbn.
    rewrite lookup_insert_ne by (intros ->; done). apply Hfree. by right.
  - done.
  - done.
  - done.
  - subst sys1. cbn. unfold pruneWindow at 1. rewrite filter_app.
    fold (pruneWindow now (pruneWindow now (requestTimestamps (client (world sys))))).
    rewrite pruneWindow_idemp, filter_cons_True, filter_nil by lia.
    rewrite length_app. cbn in *. lia.
  - split; [|split; [|done]].
    + intros j Hj. apply elem_of_cons in Hj as [->|Hj]; [|by apply Hwait].
      unfold waiting. fold (run config ((λ i, (now, Invoke i noKey)) <$> ids) sys1).
      rewrite Hother by done. subst sys1. unfold put. cbn.
      by rewrite lookup_insert_eq.
    + intros j Hj. apply not_elem_of_cons in Hj as [Hji Hj].
      fold (run config ((λ i, (now, Invoke i noKey)) <$> ids) sys1).
      rewrite Hother by done. subst sys1. unfold put. cbn.
      by rewrite lookup_insert_ne.
Qed.

Lemma step_ProbeSettles t i ok sys :
  waiting sys i →
  step config t (ProbeSettles i ok) sys
    = put i noKey (complete_probed t ok (world sys)) sys.
Proof. unfold waiting. intros H. cbn. by rewrite H. Qed.

Lemma step_Resume t i opts sys :
  calls sys !! i = Some {| options := opts; state := Suspended AwaitCheckHealthReturn |} →
  step config t (Resume i) sys
    = put i opts (complete_dispatch t (world sys)) sys.
Proof. intros H. cbn. by rewrite H. Qed.

(** When their probes succeed, the waiting callers all resume and each
    takes a slot, whatever the bound. *)
Lemma all_resume t ids : ∀ sys,
  NoDup ids →
  (∀ i, i ∈ ids → waiting sys i) →
  activeRequests
    (client (world (run config
                      (ids ≫= λ i, [(t, ProbeSettles i true); (t, Resume i)]) sys)))
  = activeRequests (client (world sys)) + Z.of_nat (length ids).
Proof.
  induction ids as [|i ids IH]; intros sys Hnd Hwait; [cbn; lia|].
  apply NoDup_cons in Hnd as [Hi Hnd].
  change (run config ((i :: ids) ≫= λ i, [(t, ProbeSettles i true); (t, Resume i)]) sys)
    with (run config (ids ≫= λ i, [(t, ProbeSettles i true); (t, Resume i)])
            (step config t (Resume i) (step config t (ProbeSettles i true) sys))).
  rewrite (step_ProbeSettles t i true sys) by (apply Hwait; left).
  rewrite (step_Resume t i noKey) by (unfold put; cbn; apply lookup_insert_eq).
  rewrite IH; [|done|].
  - unfold put, complete_dispatch, complete_probed. cbn. lia.
  - intros j Hj. unfold waiting, put. cbn.
    rewrite !lookup_insert_ne by (intros ->; done). apply Hwait. by right.
Qed.

(** However many callers enter a new client before its first probe has
    settled, as long as the window has room for them, all of them are in
    progress at once after their re-probes succeed: with one caller more
    than the bound, the active count is above the bound. *)
Lemma race_beyond_bound now t ids :
  NoDup ids →
  10000 < now →
  Z.of_nat (length ids) ≤ rateLimit_maxRequestsPerMinute config →
  activeRequests (client (world (run config (raceOf now t ids) (newSystem config))))
  = Z.of_nat (length ids).
Proof.
  intros Hnd Hnow Hroom. unfold raceOf. rewrite run_app.
  destruct (all_enter now ids (newSystem config)) as (Hwait & _ & Hact);
    [done|done|done|cbn; lia|done|unfold pruneWindow; cbn; lia|].
  rewrite all_resume by done. lia.
Qed.

End Race.

(** * Further properties of [complete] *)

(** What the synchronous start of [complete] can do to the counters, by
    the state in which it leaves the call. *)
Lemma complete_enter_cases config now opts w :
  let r := complete_enter config now opts w in
  totalErrors (client r.1) = totalErrors (client w) ∧
  ((∃ v, r.2 = Returned v) ∧
     activeRequests (client r.1) = activeRequests (client w) ∧
     totalRequests (client r.1) = totalRequests (client w) + 1 ∧
     modelsListCalls r.1 = modelsListCalls w
   ∨ (∃ e, r.2 = Thrown e) ∧
     activeRequests (client r.1) = activeRequests (client w) ∧
     totalRequests (client r.1) = totalRequests (client w) ∧
     modelsListCalls r.1 = modelsListCalls w
   ∨ r.2 = Suspended AwaitCheckHealth ∧
     activeRequests (client r.1) = activeRequests (client w) ∧
     totalRequests (client r.1) = totalRequests (client w) ∧
     modelsListCalls r.1 = S (modelsListCalls w)
   ∨ r.2 = Suspended (AwaitRetry now) ∧
     activeRequests (client r.1) = activeRequests (client w) + 1 ∧
     totalRequests (client r.1) = totalRequests (client w) + 1 ∧
     modelsListCalls r.1 = modelsListCalls w).
Proof.
  cbn. unfold complete_enter.
  destruct (cacheGet_fields config now opts (client w)) as (_ & _ & Ha & Ht & He & _).
  destruct (cacheGet config now opts (client w)) as [cached s0]. cbn in *.
  destruct (truthy cached); cbn.
  { split; [lia|]. left. split; [eauto|]. repeat split; lia. }
  pose proof (enforceRateLimit_sameCounters config now s0) as (_ & _ & _ & Ha' & Ht' & He').
  destruct (enforceRateLimit config now s0) as [s1 [[]|e]]; cbn in *.
  - destruct (isHealthy s1) eqn:Hh; cbn.
    + unfold complete_dispatch. cbn. rewrite Hh. cbn.
      split; [lia|]. do 3 right. repeat split; lia.
    + case_bool_decide; cbn.
      * split; [lia|]. right. right. left. repeat split; lia.
      * unfold complete_dispatch. cbn. rewrite Hh. cbn.
        split; [lia|]. right. left. split; [eauto|]. repeat split; lia.
  - split; [lia|]. right. left. split; [eauto|]. repeat split; lia.
Qed.

(** What line 118 onwards can do to them. *)
Lemma complete_dispatch_cases now w :
  let r := complete_dispatch now w in
  totalErrors (client r.1) = totalErrors (client w) ∧
  modelsListCalls r.1 = modelsListCalls w ∧
  chatCompletionCalls r.1 = chatCompletionCalls w ∧
  (r.2 = Thrown NotResponding ∧
     activeRequests (client r.1) = activeRequests (client w) ∧
     totalRequests (client r.1) = totalRequests (client w)
   ∨ r.2 = Suspended (AwaitRetry now) ∧
     activeRequests (client r.1) = activeRequests (client w) + 1 ∧
     totalRequests (client r.1) = totalRequests (client w) + 1).
Proof.
  cbn. unfold complete_dispatch. destruct (isHealthy (client w)); cbn; auto 10.
Qed.

(** What the settling of the request does to them. *)
Lemma complete_settle_cases config now opts r w :
  let c := complete_settle config now opts r w in
  activeRequests (client c.1) = activeRequests (client w) - 1 ∧
  totalRequests (client c.1) = totalRequests (client w) ∧
  modelsListCalls c.1 = modelsListCalls w ∧
  chatCompletionCalls c.1 = (chatCompletionCalls w + PRetry.attempts r)%nat ∧
  ((∃ v, c.2 = Returned v) ∧ totalErrors (client c.1) = totalErrors (client w)
   ∨ (∃ e, c.2 = Thrown e) ∧ totalErrors (client c.1) = totalErrors (client w) + 1).
Proof.
  cbn. unfold complete_settle. destruct (PRetry.outcome r); cbn.
  - destruct (cachingKey config opts); cbn; repeat split; eauto.
  - repeat split; eauto.
Qed.

(** X1. Whatever path a call of [complete] takes when run on its own
    (served from the cache, rejected at the gate, refused as unavailable
    with or without a re-probe, answered, or failed after its retries), it
    settles, and the active count is afterwards what it was before: every
    slot taken is given back. [totalRequests] and [totalErrors] go up by
    at most one each, an error only together with a request, and at most
    one probe is started. *)
Theorem complete_alone_balanced (config : Config) (t0 t1 t2 : Z) (opts : Options)
    (ok : bool) (replies : nat → Reply) (w : World) :
  let r := complete_alone config t0 t1 t2 opts ok replies w in
  ((∃ v, r.2 = Returned v) ∨ (∃ e, r.2 = Thrown e)) ∧
  activeRequests (client r.1) = activeRequests (client w) ∧
  0 ≤ totalErrors (client r.1) - totalErrors (client w)
    ≤ totalRequests (client r.1) - totalRequests (client w) ∧
  totalRequests (client r.1) - totalRequests (client w) ≤ 1 ∧
  (modelsListCalls r.1 ≤ S (modelsListCalls w))%nat.
Proof.
  cbn. unfold complete_alone.
  pose proof (complete_enter_cases config t0 opts w) as (He0 & Hcases).
  set (r0 := complete_enter config t0 opts w) in *.
  assert (Hfin : ∀ t (w1 : World),
            activeRequests (client w1) = activeRequests (client w) + 1 →
            totalRequests (client w1) = totalRequests (client w) + 1 →
            totalErrors (client w1) = totalErrors (client w) →
            (modelsListCalls w1 ≤ S (modelsListCalls w))%nat →
            let c := complete_settle config t opts (retried config replies) w1 in
            ((∃ v, c.2 = Returned v) ∨ (∃ e, c.2 = Thrown e)) ∧
            activeRequests (client c.1) = activeRequests (client w) ∧
            0 ≤ totalErrors (client c.1) - totalErrors (client w)
              ≤ totalRequests (client c.1) - totalRequests (client w) ∧
            totalRequests (client c.1) - totalRequests (client w) ≤ 1 ∧
            (modelsListCalls c.1 ≤ S (modelsListCalls w))%nat).
  { intros t w1 Ha Ht Herr Hm.
    pose proof (complete_settle_cases config t opts (retried config replies) w1)
      as (Ha' & Ht' & Hm' & _ & [[Hv He']|[Hv He']]); cbn;
      (split; [auto|]); repeat split; lia. }
  destruct Hcases as [([v Hv] & Ha & Ht & Hm)|[([e Hv] & Ha & Ht & Hm)
                     |[(Hv & Ha & Ht & Hm)|(Hv & Ha & Ht & Hm)]]];
    repeat (rewrite Hv; cbv beta iota zeta).
  - split; [eauto|]. repeat split; lia.
  - split; [eauto|]. repeat split; lia.
  - set (w1 := (complete_probed t1 ok r0.1).1).
    assert (Hw1 : activeRequests (client w1) = activeRequests (client r0.1) ∧
                  totalRequests (client w1) = totalRequests (client r0.1) ∧
                  totalErrors (client w1) = totalErrors (client r0.1) ∧
                  modelsListCalls w1 = modelsListCalls r0.1).
    { subst w1. unfold complete_probed, checkHealth_settle. by destruct ok. }
    destruct Hw1 as (Ha1 & Ht1 & He1 & Hm1).
    pose proof (complete_dispatch_cases t1 w1) as (He2 & Hm2 & _ & [(Hd & Ha2 & Ht2)|(Hd & Ha2 & Ht2)]);
      repeat (rewrite Hd; cbv beta iota zeta).
    + split; [eauto|]. repeat split; lia.
    + apply Hfin; lia.
  - apply Hfin; lia.
Qed.

(** On a miss the start of [complete] never returns a value. *)
Lemma complete_enter_miss config now opts w :
  truthy (cacheGet config now opts (client w)).1 = false →
  ∀ v, (complete_enter config now opts w).2 ≠ Returned v.
Proof.
  intros Hmiss v. unfold complete_enter.
  destruct (cacheGet config now opts (client w)) as [cached s0]. cbn in *.
  rewrite Hmiss.
  destruct (enforceRateLimit config now s0) as [s1 [[]|e]]; cbn; [|done].
  unfold complete_dispatch.
  destruct (negb (isHealthy s1) && _); cbn; [done|].
  by destruct (negb (isHealthy _)).
Qed.

(** The start of [complete] leaves the cache as the lookup left it, and
    resuming after the probe does not touch it. *)
Lemma complete_enter_cache config now opts w :
  cache (client (complete_enter config now opts w).1)
    = cache (cacheGet config now opts (client w)).2.
Proof.
  unfold complete_enter.
  destruct (cacheGet config now opts (client w)) as [cached s0]. cbn.
  destruct (truthy cached); cbn; [done|].
  pose proof (enforceRateLimit_sameCounters config now s0) as (Hc & _).
  destruct (enforceRateLimit config now s0) as [s1 [[]|e]]; cbn in *; [|done].
  unfold complete_dispatch.
  destruct (negb (isHealthy s1) && _); cbn; [done|].
  by destruct (negb (isHealthy _)).
Qed.

Lemma complete_dispatch_cache now w :
  cache (client (complete_dispatch now w).1) = cache (client w).
Proof. unfold complete_dispatch. by destruct (negb _). Qed.

(** X2. An entry outlives its TTL by nothing: after a call under [key] has
    stored its text at [t2], a call under the same key made later than
    [t2 + ttl * 1000] is not served from the cache, and its lookup removes
    the expired entry. *)
Theorem expired_entry_refetched (config : Config) (t2 t3 : Z) (key text : string)
    (r : PRetry.Run (option string)) (w : World) :
  cache_enabled config = true →
  key ≠ "" →
  PRetry.outcome r = Ok (Some text) →
  0 < cache_ttl config → 0 ≤ t2 →
  t2 + cache_ttl config * 1000 < t3 →
  let opts := {| cacheKey := Some key |} in
  let first := complete_settle config t2 opts r w in
  let second := complete_enter config t3 opts first.1 in
  first.2 = Returned text ∧
  NodeCache.data (cache (client first.1)) !! key
    = Some {| NodeCache.v := text; NodeCache.t := t2 + cache_ttl config * 1000 |} ∧
  (∀ v, second.2 ≠ Returned v) ∧
  NodeCache.data (cache (client second.1)) !! key = None.
Proof.
  intros Hen Hkey Hr Httl Ht2 Hlate opts first second.
  assert (Hck : cachingKey config opts = Some key).
  { unfold cachingKey. rewrite Hen. cbn.
    by rewrite (proj2 (String.eqb_neq key "")). }
  assert (Hfirst : first.2 = Returned text ∧
            NodeCache.data (cache (client first.1)) !! key
              = Some {| NodeCache.v := text;
                        NodeCache.t := t2 + cache_ttl config * 1000 |}).
  { subst first. unfold complete_settle. rewrite Hr, Hck. cbn.
    rewrite lookup_insert_eq. by rewrite bool_decide_eq_false_2 by lia. }
  destruct Hfirst as [Hf1 Hf2]. split; [done|]. split; [done|].
  assert (Hget : cacheGet config t3 opts (client first.1)
                 = (None, with_cache
                            {| NodeCache.data := delete key (NodeCache.data (cache (client first.1)));
                               NodeCache.checkTimer := NodeCache.checkTimer (cache (client first.1)) |}
                            (client first.1))).
  { unfold cacheGet. rewrite Hck. unfold NodeCache.get. rewrite Hf2.
    unfold NodeCache.live. cbn.
    rewrite (bool_decide_eq_true_2 (_ ≠ 0)) by lia.
    by rewrite (bool_decide_eq_true_2 (_ < t3)) by lia. }
  split.
  - apply complete_enter_miss. by rewrite Hget.
  - subst second. rewrite complete_enter_cache, Hget. cbn.
    apply lookup_delete_eq.
Qed.

Lemma expired_entry_refetched_witness :
  let first := complete_settle smallConfig 1000 keyK
                 (retried smallConfig (λ _, Completion (Some "pong"))) busyWorld in
  first.2 = Returned "pong" ∧
  ∀ v, (complete_enter smallConfig 301001 keyK first.1).2 ≠ Returned v.
Proof.
  destruct (expired_entry_refetched smallConfig 1000 301001 "k" "pong"
              (retried smallConfig (λ _, Completion (Some "pong"))) busyWorld)
    as (Hfirst & _ & Hmiss & _).
  - reflexivity.
  - discriminate.
  - reflexivity.
  - reflexivity.
  - discriminate.
  - reflexivity.
  - split; [exact Hfirst | exact Hmiss].
Defined.

(** X3. With caching switched off, [complete] run on its own leaves the
    cache exactly as it was, and every value it returns was fetched by
    that very call: the endpoint's request counter has gone up. *)
Theorem cache_disabled_always_fetches (config : Config) (t0 t1 t2 : Z)
    (opts : Options) (ok : bool) (replies : nat → Reply) (w : World) :
  cache_enabled config = false →
  let r := complete_alone config t0 t1 t2 opts ok replies w in
  cache (client r.1) = cache (client w) ∧
  ∀ v, r.2 = Returned v → (chatCompletionCalls w < chatCompletionCalls r.1)%nat.
Proof.
  intros Hoff r.
  assert (Hck : cachingKey config opts = None).
  { unfold cachingKey. by rewrite Hoff. }
  assert (Hget : cacheGet config t0 opts (client w) = (None, client w)).
  { unfold cacheGet. by rewrite Hck. }
  pose proof (complete_enter_cache config t0 opts w) as Hc0.
  pose proof (complete_enter_miss config t0 opts w) as Hm0.
  rewrite Hget in Hc0, Hm0. cbn in Hc0. specialize (Hm0 eq_refl).
  assert (Hsettle : ∀ t w1,
            cache (client w1) = cache (client w) →
            (chatCompletionCalls w ≤ chatCompletionCalls w1)%nat →
            let c := complete_settle config t opts (retried config replies) w1 in
            cache (client c.1) = cache (client w) ∧
            ∀ v, c.2 = Returned v →
                 (chatCompletionCalls w < chatCompletionCalls c.1)%nat).
  { intros t w1 Hc Hn. cbn.
    pose proof (complete_settle_cases config t opts (retried config replies) w1)
      as (_ & _ & _ & Hcc & _).
    split.
    - unfold complete_settle. rewrite Hck.
      destruct (PRetry.outcome _); cbn; done.
    - intros v Hv. cbn in Hcc. rewrite Hcc.
      assert (1 ≤ PRetry.attempts (retried config replies))%nat; [|lia].
      unfold complete_settle in Hv.
      destruct (PRetry.outcome (retried config replies)) as [a|e] eqn:Ho;
        [|discriminate].
      by apply (pRetry_Ok_attempts _ _ _ _ a). }
  assert (Hn0 : chatCompletionCalls (complete_enter config t0 opts w).1
                = chatCompletionCalls w).
  { unfold complete_enter. rewrite Hget. cbn.
    destruct (enforceRateLimit config t0 (client w)) as [s1 [[]|e]]; cbn; [|done].
    unfold complete_dispatch.
    destruct (negb (isHealthy s1) && _); cbn; [done|].
    by destruct (negb (isHealthy _)). }
  subst r. unfold complete_alone.
  set (r0 := complete_enter config t0 opts w) in *.
  destruct (r0.2) as [[| |start]|v|e] eqn:Hr0; cbv beta iota zeta;
    rewrite ?Hr0; cbv beta iota zeta.
  - set (w1 := (complete_probed t1 ok r0.1).1).
    assert (Hw1 : cache (client w1) = cache (client w) ∧
                  chatCompletionCalls w1 = chatCompletionCalls w).
    { subst w1. unfold complete_probed, checkHealth_settle.
      destruct ok; cbn; by rewrite Hc0, Hn0. }
    destruct Hw1 as [Hc1 Hn1].
    pose proof (complete_dispatch_cache t1 w1) as Hc2.
    pose proof (complete_dispatch_cases t1 w1) as (_ & _ & Hn2 & [(Hd & _)|(Hd & _)]);
      rewrite Hd; cbv beta iota zeta.
    + split; [congruence|]. intros v. by rewrite Hd.
    + destruct (Hsettle t2 (complete_dispatch t1 w1).1) as [Hc Hn];
        [congruence|lia|]. split; [done|]. exact Hn.
  - split; [done|]. intros v Hv. discriminate.
  - destruct (Hsettle t2 r0.1) as [Hc Hn]; [done|lia|].
    split; [done|]. exact Hn.
  - by destruct (Hm0 v).
  - split; [done|]. intros v Hv. discriminate.
Qed.

Lemma cache_disabled_always_fetches_witness :
  let off := {| lmStudio_maxRetries := 1; lmStudio_retryDelay := 1000;
                lmStudio_timeout := 30000; lmStudio_healthCheckInterval := 60000;
                server_gracefulShutdownTimeout := 5000;
                rateLimit_enabled := true; rateLimit_maxRequestsPerMinute := 5;
                rateLimit_maxConcurrent := 1;
                cache_enabled := false; cache_ttl := 300; cache_checkPeriod := 60 |} in
  let r := complete_alone off 3000 3000 3500 keyK true
             (λ _, Completion (Some "pong")) warmWorld in
  r.2 = Returned "pong" ∧ cache (client r.1) = cache (client warmWorld) ∧
  (chatCompletionCalls warmWorld < chatCompletionCalls r.1)%nat.
Proof.
  intros off r.
  destruct (cache_disabled_always_fetches off 3000 3000 3500 keyK true
              (λ _, Completion (Some "pong")) warmWorld) as [Hc Hn].
  - reflexivity.
  - split; [reflexivity|]. split; [exact Hc|]. apply (Hn "pong"). reflexivity.
Defined.

(** X4. Switching rate limiting off switches off both limits: on a healthy
    client a call that misses the cache goes to the endpoint whatever the
    active count and the window are (so also at or beyond
    [maxConcurrent]), and no timestamp is recorded or pruned. *)
Theorem limits_off_together (config : Config) (now : Z) (opts : Options) (w : World) :
  rateLimit_enabled config = false →
  truthy (cacheGet config now opts (client w)).1 = false →
  isHealthy (client w) = true →
  let r := complete_enter config now opts w in
  r.2 = Suspended (AwaitRetry now) ∧
  activeRequests (client r.1) = activeRequests (client w) + 1 ∧
  requestTimestamps (client r.1) = requestTimestamps (client w).
Proof.
  intros Hoff Hmiss Hh r. subst r.
  destruct (cacheGet_fields config now opts (client w)) as (Hh0 & _ & Ha0 & _ & _ & Hts0).
  unfold complete_enter.
  destruct (cacheGet config now opts (client w)) as [cached s0]. cbn in *.
  rewrite Hmiss, enforceRateLimit_disabled by done.
  rewrite Hh0, Hh. cbn. unfold complete_dispatch. cbn. rewrite Hh0, Hh. cbn.
  split; [done|]. split; [lia|done].
Qed.

Lemma limits_off_together_witness :
  let off := {| lmStudio_maxRetries := 3; lmStudio_retryDelay := 1000;
                lmStudio_timeout := 30000; lmStudio_healthCheckInterval := 60000;
                server_gracefulShutdownTimeout := 5000;
                rateLimit_enabled := false; rateLimit_maxRequestsPerMinute := 60;
                rateLimit_maxConcurrent := 10;
                cache_enabled := true; cache_ttl := 300; cache_checkPeriod := 60 |} in
  let r := complete_enter off 3000 noKey saturatedWorld in
  r.2 = Suspended (AwaitRetry 3000) ∧ activeRequests (client r.1) = 11.
Proof.
  intros off r.
  destruct (limits_off_together off 3000 noKey saturatedWorld) as (Hs & Ha & _).
  - reflexivity.
  - reflexivity.
  - reflexivity.
  - split; [exact Hs | exact Ha].
Defined.

(** X5. The checks come in a fixed order, and a rejected call looks no
    further: with rate limiting on, a call that misses the cache and finds
    the window full is rejected with the rate-limit error even if the
    concurrency bound is reached too; one that finds room in the window
    but the bound reached is rejected with the concurrency error. In both
    cases, whatever the health state (down and stale included), no probe is
    started, the health state is not changed and the window is only
    pruned. *)
Theorem rejection_precedes_health (config : Config) (now : Z) (opts : Options)
    (w : World) :
  rateLimit_enabled config = true →
  truthy (cacheGet config now opts (client w)).1 = false →
  rateLimit_maxRequestsPerMinute config
    ≤ Z.of_nat (length (pruneWindow now (requestTimestamps (client w))))
  ∨ rateLimit_maxConcurrent config ≤ activeRequests (client w) →
  let r := complete_enter config now opts w in
  r.2 = Thrown (if bool_decide (rateLimit_maxRequestsPerMinute config
                     ≤ Z.of_nat (length (pruneWindow now (requestTimestamps (client w)))))
                then RateLimitExceeded else TooManyConcurrent) ∧
  modelsListCalls r.1 = modelsListCalls w ∧
  isHealthy (client r.1) = isHealthy (client w) ∧
  lastHealthCheck (client r.1) = lastHealthCheck (client w) ∧
  requestTimestamps (client r.1) = pruneWindow now (requestTimestamps (client w)).
Proof.
  intros Hen Hmiss Hfull r. subst r.
  destruct (cacheGet_fields config now opts (client w)) as (Hh0 & Hl0 & Ha0 & _ & _ & Hts0).
  unfold complete_enter.
  destruct (cacheGet config now opts (client w)) as [cached s0]. cbn in *.
  rewrite Hmiss. rewrite <- Hts0, <- Ha0 in *.
  case_bool_decide as Hrate.
  - rewrite enforceRateLimit_rate by done. cbn. by rewrite Hh0, Hl0.
  - rewrite enforceRateLimit_concurrent by (done || lia). cbn. by rewrite Hh0, Hl0.
Qed.

Lemma rejection_precedes_health_witness :
  let r := complete_enter smallConfig 1700000000000 noKey
             (with_client (with_requestTimestamps [1699999999000; 1699999999500]
                             (client downAndFull)) downAndFull) in
  r.2 = Thrown RateLimitExceeded ∧ modelsListCalls r.1 = 1%nat.
Proof.
  intros r.
  destruct (rejection_precedes_health smallConfig 1700000000000 noKey
              (with_client (with_requestTimestamps [1699999999000; 1699999999500]
                              (client downAndFull)) downAndFull))
    as (Hthrown & Hprobe & _).
  - reflexivity.
  - reflexivity.
  - left. vm_compute. discriminate.
  - split; [exact Hthrown | exact Hprobe].
Defined.

(** X6. A healthy reading never goes stale on the request path, and a
    fresh unhealthy one is final: a call that misses the cache and passes
    the gate starts no probe when the flag is up, however long ago the
    last check was, and goes straight to the endpoint; when the flag is
    down and the last good check is at most 10 seconds old it starts no
    probe either and is refused at once. *)
Theorem health_gate_without_probe (config : Config) (now : Z) (opts : Options)
    (w : World) :
  truthy (cacheGet config now opts (client w)).1 = false →
  (enforceRateLimit config now (cacheGet config now opts (client w)).2).2 = Ok tt →
  isHealthy (client w) = true ∨ now - lastHealthCheck (client w) ≤ 10000 →
  let r := complete_enter config now opts w in
  modelsListCalls r.1 = modelsListCalls w ∧
  r.2 = (if isHealthy (client w) then Suspended (AwaitRetry now)
         else Thrown NotResponding).
Proof.
  intros Hmiss Hok Hfresh r. subst r.
  rewrite complete_enter_past_gate by done.
  destruct (cacheGet_fields config now opts (client w)) as (Hh & Hl & _).
  destruct (enforceRateLimit_sameCounters config now
              (cacheGet config now opts (client w)).2) as (_ & Hh' & Hl' & _).
  rewrite Hh', Hl', Hh, Hl.
  destruct (isHealthy (client w)) eqn:Hup; cbn.
  - unfold complete_dispatch. cbn. by rewrite Hh', Hh.
  - rewrite bool_decide_eq_false_2 by (destruct Hfresh; [done|lia]).
    unfold complete_dispatch. cbn. by rewrite Hh', Hh.
Qed.

Lemma health_gate_without_probe_witness :
  let r := complete_enter defaultConfig 1700000000000 noKey busyWorld in
  modelsListCalls r.1 = 1%nat ∧ r.2 = Suspended (AwaitRetry 1700000000000).
Proof.
  intros r.
  destruct (health_gate_without_probe defaultConfig 1700000000000 noKey busyWorld)
    as (Hprobe & Hstate).
  - reflexivity.
  - reflexivity.
  - left. reflexivity.
  - split; [exact Hprobe | exact Hstate].
Defined.

(** * Further properties of the retried request *)

(** X7. A request that fails [k] times with errors that are retried (any
    error but a [TypeError] that reports no network failure) and then
    succeeds, with [k] no more than [maxRetries] and a [retryDelay] that
    is not negative, is tried exactly [k + 1] times with [k] waits in
    between; [complete] returns the text of the successful attempt (the
    empty text if it has none), and the failed attempts leave no trace in
    [totalErrors]. *)
Theorem retry_recovers (config : Config) (replies : nat → Reply)
    (errs : nat → JsError) (k : nat) (content : option string)
    (now : Z) (opts : Options) (w : World) :
  0 ≤ lmStudio_retryDelay config →
  Z.of_nat k ≤ lmStudio_maxRetries config →
  (∀ j, (1 ≤ j ≤ k)%nat →
     attempt config (replies j) = Throw (errs j) ∧
     nonNetworkTypeError (errs j) = false) →
  attempt config (replies (S k)) = Ok content →
  let r := retried config replies in
  let c := complete_settle config now opts r w in
  PRetry.attempts r = S k ∧
  length (PRetry.delays r) = k ∧
  c.2 = Returned (default "" content) ∧
  totalErrors (client c.1) = totalErrors (client w) ∧
  activeRequests (client c.1) = activeRequests (client w) - 1 ∧
  chatCompletionCalls c.1 = (chatCompletionCalls w + S k)%nat.
Proof.
  intros Hdelay Hk Hfail Hok r c.
  set (base := lmStudio_retryDelay config) in *.
  set (ts := PRetry.timeouts (Z.to_nat (lmStudio_maxRetries config)) base (base * 3)).
  assert (Hr : r = PRetry.run (λ n, attempt config (replies n)) ts [] 1).
  { subst r. unfold retried, PRetry.pRetry. fold base.
    by rewrite bool_decide_false by lia. }
  destruct (run_success_after (λ n, attempt config (replies n)) errs content k
              ts [] 1) as [Ha Ho].
  - subst ts. unfold PRetry.timeouts. rewrite length_fmap, length_seq. lia.
  - intros j Hj. apply Hfail. lia.
  - exact Hok.
  - rewrite <- Hr in Ha, Ho.
    split; [done|]. split.
    { assert (Hd : PRetry.delays r =
                (λ k, PRetry.createTimeout base (base * 3) (k - 1)) <$>
                  seq 1 (PRetry.attempts r - 1)) by apply pRetry_delays.
      rewrite Hd, length_fmap, length_seq, Ha. lia. }
    subst c. unfold complete_settle. rewrite Ho, Ha. cbn.
    destruct (cachingKey config opts); done.
Qed.

Lemma retry_recovers_witness :
  let replies := λ n : nat, match n with
                            | 1%nat => NoReply
                            | 2%nat => Malformed "choices: Required"
                            | _ => Completion (Some "pong")
                            end in
  let r := retried defaultConfig replies in
  PRetry.attempts r = 3%nat ∧
  (complete_settle defaultConfig 40000 noKey r busyWorld).2 = Returned "pong" ∧
  totalErrors (client (complete_settle defaultConfig 40000 noKey r busyWorld).1) = 0.
Proof.
  intros replies r.
  destruct (retry_recovers defaultConfig replies
              (λ n, match n with
                    | 1%nat => TimeoutError 30000
                    | _ => {| name := "ZodError"; message := "choices: Required";
                              nonNetworkTypeError := false |}
                    end)
              2 (Some "pong") 40000 noKey busyWorld)
    as (Ha & _ & Hret & Herr & _).
  - vm_compute. discriminate.
  - vm_compute. discriminate.
  - intros [|[|[|j]]] Hj; try lia; split; reflexivity.
  - reflexivity.
  - split; [exact Ha|]. split; [exact Hret | exact Herr].
Defined.

(** X25. A [TypeError] that reports no network failure ends the retried
    request where it occurs: after [k] failures that are retried, with
    [k] no more than [maxRetries], such an error at attempt [k + 1] is
    followed by no further attempt and no wait, retries left or not.
    [complete] adds one to [totalErrors], releases its slot and throws
    that error as it is (unless it is named [TimeoutError]). *)
Theorem type_error_not_retried (config : Config) (replies : nat → Reply)
    (errs : nat → JsError) (k : nat) (e : JsError)
    (now : Z) (opts : Options) (w : World) :
  0 ≤ lmStudio_retryDelay config →
  Z.of_nat k ≤ lmStudio_maxRetries config →
  (∀ j, (1 ≤ j ≤ k)%nat →
     attempt config (replies j) = Throw (errs j) ∧
     nonNetworkTypeError (errs j) = false) →
  attempt config (replies (S k)) = Throw e →
  nonNetworkTypeError e = true →
  let r := retried config replies in
  let c := complete_settle config now opts r w in
  PRetry.attempts r = S k ∧
  length (PRetry.delays r) = k ∧
  PRetry.outcome r = Throw e ∧
  c.2 = Thrown (if String.eqb (name e) "TimeoutError" then RequestTimedOut config
                else e) ∧
  totalErrors (client c.1) = totalErrors (client w) + 1 ∧
  activeRequests (client c.1) = activeRequests (client w) - 1 ∧
  chatCompletionCalls c.1 = (chatCompletionCalls w + S k)%nat.
Proof.
  intros Hdelay Hk Hfail Hthrow Hty r c.
  set (base := lmStudio_retryDelay config) in *.
  set (ts := PRetry.timeouts (Z.to_nat (lmStudio_maxRetries config)) base (base * 3)).
  assert (Hr : r = PRetry.run (λ n, attempt config (replies n)) ts [] 1).
  { subst r. unfold retried, PRetry.pRetry. fold base.
    by rewrite bool_decide_false by lia. }
  destruct (run_stops_after (λ n, attempt config (replies n)) errs e k ts [] 1)
    as [Ha Ho].
  - subst ts. unfold PRetry.timeouts. rewrite length_fmap, length_seq. lia.
  - intros j Hj. apply Hfail. lia.
  - exact Hthrow.
  - exact Hty.
  - rewrite <- Hr in Ha, Ho.
    split; [done|]. split.
    { assert (Hd : PRetry.delays r =
                (λ k, PRetry.createTimeout base (base * 3) (k - 1)) <$>
                  seq 1 (PRetry.attempts r - 1)) by apply pRetry_delays.
      rewrite Hd, length_fmap, length_seq, Ha. lia. }
    split; [done|].
    subst c. unfold complete_settle. rewrite Ho, Ha. cbn. done.
Qed.

Lemma type_error_not_retried_witness :
  let r := retried defaultConfig (λ _, ApiError programError) in
  PRetry.attempts r = 1%nat ∧ PRetry.delays r = [] ∧
  (complete_settle defaultConfig 40000 noKey r busyWorld).2 = Thrown programError.
Proof.
  intros r.
  destruct (type_error_not_retried defaultConfig (λ _, ApiError programError)
              (λ _, programError) 0 programError 40000 noKey busyWorld)
    as (Ha & Hd & _ & Hc & _).
  - vm_compute. discriminate.
  - vm_compute. discriminate.
  - intros j Hj. lia.
  - reflexivity.
  - reflexivity.
  - split; [exact Ha|]. split; [|exact Hc].
    by apply nil_length_inv.
Defined.




(** * Properties of [completeStream] *)

(** X9. [completeStream] does not try to recover: when the flag is down,
    a call that passes the gate is refused at once with its own message
    (not that of [complete]), even if the last good check is more than 10
    seconds old. No probe and no request is issued and no counter moves;
    with rate limiting on, the timestamp the gate recorded stays. *)
Theorem stream_refused_without_probe (config : Config) (now : Z) (w : World) :
  (enforceRateLimit config now (client w)).2 = Ok tt →
  isHealthy (client w) = false →
  let r := completeStream_enter config now w in
  r.2 = StreamThrown StreamNotResponding ∧
  StreamNotResponding ≠ NotResponding ∧
  modelsListCalls r.1 = modelsListCalls w ∧
  chatCompletionCalls r.1 = chatCompletionCalls w ∧
  activeRequests (client r.1) = activeRequests (client w) ∧
  totalRequests (client r.1) = totalRequests (client w) ∧
  totalErrors (client r.1) = totalErrors (client w) ∧
  isHealthy (client r.1) = false ∧
  (rateLimit_enabled config = true →
   requestTimestamps (client r.1)
     = pruneWindow now (requestTimestamps (client w)) ++ [now]).
Proof.
  intros Hok Hdown r. subst r. unfold completeStream_enter.
  pose proof (enforceRateLimit_sameCounters config now (client w))
    as (_ & Hh & _ & Ha & Ht & He).
  pose proof (enforceRateLimit_window config now (client w)) as Hw.
  destruct (enforceRateLimit config now (client w)) as [s1 res]. cbn in *.
  subst res. rewrite Hh, Hdown. cbn.
  repeat split; try done. congruence.
Qed.

Lemma stream_refused_without_probe_witness :
  let r := completeStream_enter smallConfig 1700000000000 (freshWorld smallConfig) in
  r.2 = StreamThrown StreamNotResponding ∧
  modelsListCalls r.1 = 1%nat ∧
  requestTimestamps (client r.1) = [1700000000000].
Proof.
  destruct (stream_refused_without_probe smallConfig 1700000000000
              (freshWorld smallConfig))
    as (Hthrown & _ & Hprobe & _ & _ & _ & _ & _ & Hts).
  - reflexivity.
  - reflexivity.
  - split; [exact Hthrown|]. split; [exact Hprobe|]. apply Hts. reflexivity.
Defined.

Lemma contents_cons c cs :
  contents (c :: cs) = if truthy c then default "" c :: contents cs else contents cs.
Proof.
  unfold contents. destruct c as [c|]; [|done].
  change (omap id (Some c :: cs)) with (c :: omap id cs). cbn [truthy default].
  destruct (String.eqb c "") eqn:Hc; cbn [negb].
  - apply String.eqb_eq in Hc as ->. by rewrite filter_cons_False by naive_solver.
  - apply String.eqb_neq in Hc. by rewrite filter_cons_True by done.
Qed.

Lemma forAwait_prefix onChunk cs :
  (forAwait onChunk cs).1 `prefix_of` contents cs.
Proof.
  induction cs as [|c cs IH]; [done|].
  rewrite contents_cons. cbn [forAwait].
  destruct (truthy c); [|done].
  destruct (onChunk (default "" c)); cbn.
  - apply prefix_cons, prefix_nil.
  - by apply prefix_cons.
Qed.

Lemma forAwait_quiet onChunk cs :
  (∀ s, onChunk s = None) →
  forAwait onChunk cs = (contents cs, None).
Proof.
  intros Hquiet. induction cs as [|c cs IH]; [done|].
  rewrite contents_cons. cbn [forAwait].
  destruct (truthy c); [|done].
  by rewrite Hquiet, IH.
Qed.

(** What the end of a stream does to the counters. *)
Lemma completeStream_settle_cases onChunk course w :
  let r := completeStream_settle onChunk course w in
  activeRequests (client r.1) = activeRequests (client w) - 1 ∧
  totalRequests (client r.1) = totalRequests (client w) ∧
  (r.2.2 = StreamEnded ∧ totalErrors (client r.1) = totalErrors (client w)
   ∨ (∃ e, r.2.2 = StreamThrown e) ∧
     totalErrors (client r.1) = totalErrors (client w) + 1).
Proof.
  cbn. unfold completeStream_settle.
  destruct (forAwait onChunk (chunks course)) as [rec [e|]]; cbn; [eauto 10|].
  destruct (failure course); cbn; eauto 10.
Qed.

(** X10. The callback of [completeStream] is called with non-empty
    contents only, in the order of the stream and without a gap: what it
    has received is a prefix of the stream's non-empty contents. When the
    callback never throws it receives all of them, also those that came
    before the stream failed, and the stream's own error is rethrown as
    it is (a [TimeoutError] included), with one more in [totalErrors];
    the slot is given back on every path. *)
Theorem stream_delivery (onChunk : string → option JsError) (course : StreamCourse)
    (w : World) :
  let r := completeStream_settle onChunk course w in
  r.2.1 `prefix_of` contents (chunks course) ∧
  activeRequests (client r.1) = activeRequests (client w) - 1 ∧
  totalRequests (client r.1) = totalRequests (client w) ∧
  (r.2.2 = StreamEnded ∧ totalErrors (client r.1) = totalErrors (client w)
   ∨ (∃ e, r.2.2 = StreamThrown e) ∧
     totalErrors (client r.1) = totalErrors (client w) + 1) ∧
  ((∀ s, onChunk s = None) →
   r.2.1 = contents (chunks course) ∧
   r.2.2 = match failure course with
           | None => StreamEnded
           | Some e => StreamThrown e
           end).
Proof.
  cbn. unfold completeStream_settle.
  pose proof (forAwait_prefix onChunk (chunks course)) as Hpre.
  pose proof (forAwait_quiet onChunk (chunks course)) as Hquiet.
  destruct (forAwait onChunk (chunks course)) as [rec thrown]. cbn in *.
  assert (Hq : (∀ s, onChunk s = None) → rec = contents (chunks course) ∧ thrown = None).
  { intros H. specialize (Hquiet H). by injection Hquiet. }
  destruct thrown as [e|]; cbn.
  - split; [done|]. split; [done|]. split; [done|]. split; [right; eauto|].
    intros H. by destruct (Hq H).
  - destruct (failure course) as [e|]; cbn.
    + split; [done|]. split; [done|]. split; [done|]. split; [right; eauto|].
      intros H. by destruct (Hq H).
    + split; [done|]. split; [done|]. split; [done|]. split; [left; eauto|].
      intros H. by destruct (Hq H).
Qed.

(** X11. [completeStream] never consults or fills the cache and never
    writes the health state: entering and settling leave the cache, the
    flag and the time of the last check as they were, so a stream is not
    served from the cache and its text is not stored for [complete]. *)
Theorem stream_leaves_cache_and_health (config : Config) (now : Z)
    (onChunk : string → option JsError) (course : StreamCourse) (w : World) :
  let r := completeStream_enter config now w in
  let c := completeStream_settle onChunk course r.1 in
  cache (client r.1) = cache (client w) ∧
  isHealthy (client r.1) = isHealthy (client w) ∧
  lastHealthCheck (client r.1) = lastHealthCheck (client w) ∧
  modelsListCalls r.1 = modelsListCalls w ∧
  cache (client c.1) = cache (client w) ∧
  isHealthy (client c.1) = isHealthy (client w) ∧
  lastHealthCheck (client c.1) = lastHealthCheck (client w) ∧
  modelsListCalls c.1 = modelsListCalls w.
Proof.
  cbn.
  assert (Henter : cache (client (completeStream_enter config now w).1) = cache (client w) ∧
                   isHealthy (client (completeStream_enter config now w).1)
                     = isHealthy (client w) ∧
                   lastHealthCheck (client (completeStream_enter config now w).1)
                     = lastHealthCheck (client w) ∧
                   modelsListCalls (completeStream_enter config now w).1
                     = modelsListCalls w).
  { unfold completeStream_enter.
    pose proof (enforceRateLimit_sameCounters config now (client w))
      as (Hc & Hh & Hl & _).
    destruct (enforceRateLimit config now (client w)) as [s1 [[]|e]]; cbn in *;
      [|done].
    destruct (isHealthy s1) eqn:E; cbn; repeat split; congruence. }
  destruct Henter as (Hc & Hh & Hl & Hm).
  repeat split; try done; unfold completeStream_settle;
    destruct (forAwait onChunk (chunks course)) as [rec [e|]]; cbn; try done;
    destruct (failure course); cbn; done.
Qed.

(** * What holds along every schedule *)

(** Counting in a map. *)
Section Count.
Context {K V : Type} `{Countable K}.
Variable P : V → bool.

Lemma count_empty : count P (∅ : gmap K V) = 0%nat.
Proof. unfold count. by rewrite map_filter_empty, map_size_empty. Qed.

Lemma count_insert_fresh (m : gmap K V) i x :
  m !! i = None →
  count P (<[i:=x]> m) = (count P m + (if P x then 1 else 0))%nat.
Proof.
  intros Hi. unfold count. rewrite map_filter_insert. cbn.
  destruct (P x); case_decide; try done.
  - rewrite map_size_insert_None; [lia|].
    apply map_lookup_filter_None. by left.
  - rewrite delete_id by done. lia.
Qed.

Lemma count_insert_over (m : gmap K V) i x y :
  m !! i = Some y →
  (count P (<[i:=x]> m) + (if P y then 1 else 0)
   = count P m + (if P x then 1 else 0))%nat.
Proof.
  intros Hi.
  rewrite <- (insert_delete_eq m i x).
  rewrite <- (insert_id m i y) at 2 by done.
  rewrite <- (insert_delete_eq m i y).
  rewrite !count_insert_fresh by apply lookup_delete_eq. lia.
Qed.

End Count.

(** What one turn of the system of [complete] calls does to the counters
    and to the number of calls waiting at line 127. *)
Lemma step_effect config now ev sys :
  let sys' := step config now ev sys in
  let s := client (world sys) in
  let s' := client (world sys') in
  activeRequests s' - activeRequests s
    = Z.of_nat (count atRetry (calls sys')) - Z.of_nat (count atRetry (calls sys)) ∧
  0 ≤ totalErrors s' - totalErrors s ∧
  0 ≤ totalRequests s' - totalRequests s ∧
  totalErrors s' - totalErrors s + (activeRequests s' - activeRequests s)
    ≤ totalRequests s' - totalRequests s.
Proof.
  cbn. destruct ev as [id opts|id ok|id|id replies| |ok| |]; cbn.
  - destruct (calls sys !! id) as [c|] eqn:Hid; [lia|].
    unfold put. cbn. rewrite count_insert_fresh by done.
    pose proof (complete_enter_cases config now opts (world sys)) as (He & Hcases).
    destruct Hcases as [([v Hv] & Ha & Ht & _)|[([e Hv] & Ha & Ht & _)
                       |[(Hv & Ha & Ht & _)|(Hv & Ha & Ht & _)]]];
      unfold atRetry; cbn; rewrite Hv; lia.
  - destruct (calls sys !! id) as [[o [[]| |]]|] eqn:Hid; try lia.
    unfold put. cbn.
    pose proof (count_insert_over atRetry (calls sys) id
                  {| options := o; state := Suspended AwaitCheckHealthReturn |} _ Hid) as Hc.
    unfold atRetry in Hc at 2 4. cbn in Hc.
    destruct ok; cbn; lia.
  - destruct (calls sys !! id) as [[o [[]| |]]|] eqn:Hid; try lia.
    unfold put. cbn.
    pose proof (complete_dispatch_cases now (world sys))
      as (He & _ & _ & [(Hd & Ha & Ht)|(Hd & Ha & Ht)]);
      pose proof (count_insert_over atRetry (calls sys) id
                    {| options := o; state := (complete_dispatch now (world sys)).2 |}
                    _ Hid) as Hc;
      unfold atRetry in Hc at 2 4; cbn in Hc; rewrite Hd in Hc; rewrite Hd; lia.
  - destruct (calls sys !! id) as [[o [[]| |]]|] eqn:Hid; try lia.
    unfold put. cbn.
    pose proof (complete_settle_cases config now o (retried config replies) (world sys))
      as (Ha & Ht & _ & _ & Hcases).
    pose proof (count_insert_over atRetry (calls sys) id
                  {| options := o;
                     state := (complete_settle config now o (retried config replies)
                                 (world sys)).2 |} _ Hid) as Hc.
    unfold atRetry in Hc at 2 4. cbn in Hc.
    destruct Hcases as [[[v Hv] He]|[[e Hv] He]]; rewrite Hv in Hc; rewrite Hv; lia.
  - destruct (healthInterval (world sys)); cbn; lia.
  - destruct (loopProbes sys); cbn; [lia|]. destruct ok; cbn; lia.
  - destruct (NodeCache.checkTimer _); cbn; lia.
  - lia.
Qed.

(** What entering and settling [completeStream] do to them. *)
Lemma completeStream_enter_cases config now w :
  let r := completeStream_enter config now w in
  totalErrors (client r.1) = totalErrors (client w) ∧
  ((∃ e, r.2 = StreamThrown e) ∧
     activeRequests (client r.1) = activeRequests (client w) ∧
     totalRequests (client r.1) = totalRequests (client w)
   ∨ r.2 = Streaming now ∧
     activeRequests (client r.1) = activeRequests (client w) + 1 ∧
     totalRequests (client r.1) = totalRequests (client w) + 1).
Proof.
  cbn. unfold completeStream_enter.
  pose proof (enforceRateLimit_sameCounters config now (client w))
    as (_ & _ & _ & Ha & Ht & He).
  destruct (enforceRateLimit config now (client w)) as [s1 [[]|e]]; cbn in *.
  - destruct (isHealthy s1); cbn; (split; [lia|]); [right|left; split; [eauto|]];
      repeat split; lia.
  - split; [lia|]. left. split; [eauto|]. lia.
Qed.

Lemma stepProcess_counted config now turn p :
  counted p → counted (stepProcess config now turn p).
Proof.
  unfold counted, inProgress. intros (Ha & He & Ht).
  destruct turn as [ev|id callback|id course]; cbn.
  - pose proof (step_effect config now ev (system p)) as (Ha' & He' & Ht' & Hsum).
    cbn in *. lia.
  - destruct (streamCalls p !! id) as [c|] eqn:Hid; [done|]. cbn.
    rewrite count_insert_fresh by done.
    pose proof (completeStream_enter_cases config now (world (system p)))
      as (He' & [([e Hv] & Ha' & Ht')|(Hv & Ha' & Ht')]);
      cbn [isStreaming streamState]; rewrite Hv; cbn in *; lia.
  - destruct (streamCalls p !! id) as [[cb [start| |e] rec]|] eqn:Hid; try done.
    cbn.
    pose proof (completeStream_settle_cases cb course (world (system p)))
      as (Ha' & Ht' & Hcases).
    pose proof (count_insert_over isStreaming (streamCalls p) id
                  {| onChunk := cb;
                     streamState := (completeStream_settle cb course
                                       (world (system p))).2.2;
                     received := (completeStream_settle cb course
                                    (world (system p))).2.1 |} _ Hid) as Hc.
    unfold isStreaming in Hc at 2 4. cbn in Hc.
    destruct Hcases as [[Hv He']|[[e Hv] He']]; rewrite Hv in Hc; rewrite Hv;
      cbn in *; lia.
Qed.

Lemma runProcess_counted config schedule : ∀ p,
  counted p → counted (runProcess config schedule p).
Proof.
  induction schedule as [|[now turn] schedule IH]; intros p Hp; [done|].
  cbn. apply IH. by apply stepProcess_counted.
Qed.

Lemma newProcess_counted config : counted (newProcess config).
Proof.
  unfold counted, inProgress, newProcess. cbn.
  by rewrite !count_empty.
Qed.

(** X12. Along every schedule of [complete] and [completeStream] calls,
    probes, sweeps and shutdowns, from construction on, the active count
    that [getMetrics] reports is exactly the number of requests in
    progress (calls of [complete] waiting for their retried request and
    calls of [completeStream] consuming their stream). It is therefore
    never negative, and back at 0 whenever no request is in progress: no
    slot is leaked and none is given back twice. *)
Theorem slots_accounted (config : Config) (schedule : list (Z * Turn)) :
  let p := runProcess config schedule (newProcess config) in
  let m := getMetrics (client (world (system p))) in
  m_activeRequests m = Z.of_nat (inProgress p) ∧
  0 ≤ m_activeRequests m ∧
  (inProgress p = 0%nat → m_activeRequests m = 0).
Proof.
  cbn.
  destruct (runProcess_counted config schedule _ (newProcess_counted config))
    as (Ha & _ & _).
  rewrite Ha. split; [done|]. split; [lia|]. intros ->. done.
Qed.

(** X13. Along every such schedule [totalErrors] never exceeds
    [totalRequests] and neither is negative, so the error rate of
    [getMetrics] (taken as 0 before the first request) always lies between
    0 and 1. *)
Theorem error_rate_within_bounds (config : Config) (schedule : list (Z * Turn)) :
  let p := runProcess config schedule (newProcess config) in
  let m := getMetrics (client (world (system p))) in
  0 ≤ m_totalErrors m ≤ m_totalRequests m ∧
  (0 <= m_errorRate m <= 1)%Q.
Proof.
  cbn.
  destruct (runProcess_counted config schedule _ (newProcess_counted config))
    as (Ha & He & Ht).
  set (s := client (world (system (runProcess config schedule (newProcess config))))) in *.
  assert (0 ≤ activeRequests s) by lia.
  split; [lia|].
  case_bool_decide as Hpos; [|done].
  unfold Qle. cbn. rewrite Z2Pos.id by done. lia.
Qed.

Lemma enforceRateLimit_gateStep config now s log :
  rateLimit_enabled config = true →
  gateStep config now (requestTimestamps s)
    (requestTimestamps (enforceRateLimit config now s).1)
    log (logPass now (Some (enforceRateLimit config now s).2) log).
Proof.
  intros Hen. unfold gateStep, enforceRateLimit. rewrite Hen. cbn.
  repeat case_bool_decide; cbn; [auto|auto|].
  right. right. repeat split; [done..|lia].
Qed.

Lemma complete_dispatch_timestamps now w :
  requestTimestamps (client (complete_dispatch now w).1) = requestTimestamps (client w).
Proof. unfold complete_dispatch. by destruct (negb _). Qed.

Lemma complete_enter_gateStep config now opts w log :
  rateLimit_enabled config = true →
  gateStep config now (requestTimestamps (client w))
    (requestTimestamps (client (complete_enter config now opts w).1))
    log (logPass now (gateAnswer config now opts w) log).
Proof.
  intros Hen. unfold complete_enter, gateAnswer.
  destruct (cacheGet_fields config now opts (client w)) as (_ & _ & _ & _ & _ & Hts).
  destruct (cacheGet config now opts (client w)) as [cached s0]. cbn in Hts.
  destruct (truthy cached); cbn; [left; by rewrite Hts|].
  pose proof (enforceRateLimit_gateStep config now s0 log Hen) as Hg.
  rewrite Hts in Hg.
  destruct (enforceRateLimit config now s0) as [s1 [[]|e]]; cbn in *; [|done].
  destruct (negb (isHealthy s1) && _); cbn; [done|].
  by rewrite complete_dispatch_timestamps.
Qed.

Lemma stepProcess_gateStep config now turn p :
  rateLimit_enabled config = true →
  gateStep config now
    (requestTimestamps (client (world (system p))))
    (requestTimestamps (client (world (system (stepProcess config now turn p)))))
    (gatePasses p) (gatePasses (stepProcess config now turn p)).
Proof.
  intros Hen. destruct turn as [ev|id callback|id course]; cbn.
  - destruct ev as [id opts|id ok|id|id replies| |ok| |]; cbn.
    + destruct (calls (system p) !! id); [by left|].
      by apply complete_enter_gateStep.
    + left. destruct (calls (system p) !! id) as [[o [[]| |]]|]; try done.
      cbn. by destruct ok.
    + left. destruct (calls (system p) !! id) as [[o [[]| |]]|]; try done.
      cbn. by rewrite complete_dispatch_timestamps.
    + left. destruct (calls (system p) !! id) as [[o [[]| |]]|]; try done.
      cbn. unfold complete_settle.
      destruct (PRetry.outcome _); cbn; [|done].
      by destruct (cachingKey config o).
    + left. by destruct (healthInterval _).
    + left. destruct (loopProbes _); [done|]. by destruct ok.
    + left. by destruct (NodeCache.checkTimer _).
    + by left.
  - destruct (streamCalls p !! id); [by left|]. cbn.
    pose proof (enforceRateLimit_gateStep config now (client (world (system p)))
                  (gatePasses p) Hen) as Hg.
    unfold completeStream_enter.
    destruct (enforceRateLimit config now (client (world (system p))))
      as [s1 [[]|e]]; cbn in *; [|done].
    by destruct (negb (isHealthy s1)).
  - left. destruct (streamCalls p !! id) as [[cb [start| |e] rec]|]; try done.
    cbn. unfold completeStream_settle.
    destruct (forAwait cb (chunks course)) as [r [e|]]; cbn; [done|].
    by destruct (failure course).
Qed.

(** X14. With rate limiting on and a bound that is not negative, the
    window never holds more timestamps than the bound, along every
    schedule from construction on: [requestsPerMinute] of [getMetrics]
    is at most [maxRequestsPerMinute]. *)
Theorem window_within_bound (config : Config) (schedule : list (Z * Turn)) :
  rateLimit_enabled config = true →
  0 ≤ rateLimit_maxRequestsPerMinute config →
  let p := runProcess config schedule (newProcess config) in
  Z.of_nat (m_requestsPerMinute (getMetrics (client (world (system p)))))
    ≤ rateLimit_maxRequestsPerMinute config.
Proof.
  intros Hen HR. cbn.
  assert (Hrun : ∀ p,
            Z.of_nat (length (requestTimestamps (client (world (system p)))))
              ≤ rateLimit_maxRequestsPerMinute config →
            Z.of_nat (length (requestTimestamps
                                (client (world (system (runProcess config schedule p))))))
              ≤ rateLimit_maxRequestsPerMinute config).
  { induction schedule as [|[now turn] schedule IH]; intros p Hp; [done|].
    cbn. apply IH.
    destruct (stepProcess_gateStep config now turn p Hen)
      as [[-> _]|[[-> _]|(-> & _ & Hlt)]].
    - done.
    - pose proof (length_filter (λ ts, now - 60000 < ts)
                    (requestTimestamps (client (world (system p))))).
      unfold pruneWindow. lia.
    - rewrite length_app. cbn. lia. }
  apply Hrun. cbn. lia.
Qed.

Lemma window_within_bound_witness :
  Z.of_nat (m_requestsPerMinute
              (getMetrics (client (world (system
                 (runProcess smallConfig
                    [(1700000000000, ClientTurn (LoopProbeSettles true));
                     (1700000000100, ClientTurn (Invoke 1 noKey));
                     (1700000000200, StreamInvoke 1 (λ _, None));
                     (1700000000300, ClientTurn (Invoke 2 noKey))]
                    (newProcess smallConfig)))))))
    ≤ 2.
Proof.
  apply (window_within_bound smallConfig
           [(1700000000000, ClientTurn (LoopProbeSettles true));
            (1700000000100, ClientTurn (Invoke 1 noKey));
            (1700000000200, StreamInvoke 1 (λ _, None));
            (1700000000300, ClientTurn (Invoke 2 noKey))]).
  - reflexivity.
  - vm_compute. discriminate.
Defined.

Lemma length_filter_mono {A} (P Q : A → Prop)
    `{∀ x, Decision (P x)} `{∀ x, Decision (Q x)} (l : list A) :
  (∀ x, P x → Q x) →
  (length (filter P l) ≤ length (filter Q l))%nat.
Proof.
  intros HPQ. induction l as [|a l IH]; [done|].
  destruct (decide (P a)) as [Ha|Ha].
  - rewrite (filter_cons_True P), (filter_cons_True Q) by auto. cbn. lia.
  - rewrite (filter_cons_False P) by done.
    destruct (decide (Q a)).
    + rewrite (filter_cons_True Q) by done. cbn. lia.
    + by rewrite (filter_cons_False Q) by done.
Qed.

Lemma clockFrom_weaken {E} c c' (schedule : list (Z * E)) :
  c' ≤ c → clockFrom c schedule → clockFrom c' schedule.
Proof.
  destruct schedule as [|[t e] rest]; cbn; [done|].
  intros Hc [Ht Hrest]. split; [lia|done].
Qed.

Lemma gateStep_windowed config now c ts ts' log log' :
  c ≤ now →
  gateStep config now ts ts' log log' →
  windowed config c ts log →
  ∃ c', c' ≤ now ∧ windowed config c' ts' log'.
Proof.
  intros Hc Hstep [Hts Hlog].
  destruct Hstep as [[-> ->]|[[-> ->]|(-> & -> & Hlt)]].
  - exists c. by split.
  - exists now. split; [done|]. split; [|done].
    by rewrite Hts, pruneWindow_later.
  - exists now. split; [done|].
    rewrite Hts, pruneWindow_later in * by done. split.
    + unfold pruneWindow at 2. rewrite filter_app.
      by rewrite (filter_cons_True _ now), filter_nil by lia.
    + intros T. unfold passesIn. rewrite filter_app, length_app.
      destruct (decide (T - 60000 < now ∧ now ≤ T)) as [Hin|Hout].
      * rewrite (filter_cons_True _ now), filter_nil by done. cbn.
        assert (length (passesIn T log) ≤ length (pruneWindow now log))%nat;
          [|unfold passesIn in *; lia].
        apply length_filter_mono. lia.
      * rewrite (filter_cons_False _ now), filter_nil by done. cbn.
        specialize (Hlog T). unfold passesIn in Hlog. lia.
Qed.

(** X15. The per-minute bound is kept over every 60 seconds, not only
    at the instants of the checks. With rate limiting on, a bound that is
    not negative and a clock that never goes back, along every schedule
    from construction on and for every instant [T]: the calls of
    [complete] and [completeStream] that the gate let pass in the 60
    seconds up to [T] are never more than [maxRequestsPerMinute]. *)
Theorem rolling_window_guarantee (config : Config) (schedule : list (Z * Turn))
    (c0 T : Z) :
  rateLimit_enabled config = true →
  0 ≤ rateLimit_maxRequestsPerMinute config →
  clockFrom c0 schedule →
  let p := runProcess config schedule (newProcess config) in
  Z.of_nat (length (passesIn T (gatePasses p)))
    ≤ rateLimit_maxRequestsPerMinute config.
Proof.
  intros Hen HR Hclock. cbn.
  assert (Hrun : ∀ c p,
            clockFrom c schedule →
            windowed config c (requestTimestamps (client (world (system p))))
              (gatePasses p) →
            ∃ c', windowed config c'
                    (requestTimestamps
                       (client (world (system (runProcess config schedule p)))))
                    (gatePasses (runProcess config schedule p))).
  { clear Hclock. induction schedule as [|[now turn] schedule IH];
      intros c p Hclock Hw; [by exists c|].
    cbn in Hclock. destruct Hclock as [Hc Hrest].
    destruct (gateStep_windowed config now c _ _ _ _ Hc
                (stepProcess_gateStep config now turn p Hen) Hw) as (c' & Hc' & Hw').
    cbn. apply (IH c'); [|done]. by apply (clockFrom_weaken now). }
  destruct (Hrun c0 (newProcess config) Hclock) as (c' & _ & Hlog).
  - split; [done|]. intros T'. cbn. lia.
  - apply Hlog.
Qed.

Lemma rolling_window_guarantee_witness :
  gatePasses (runProcess smallConfig burstSchedule (newProcess smallConfig))
    = [1700000000100; 1700000000300] ∧
  Z.of_nat (length (passesIn 1700000000500
                      (gatePasses (runProcess smallConfig burstSchedule
                                     (newProcess smallConfig))))) ≤ 2.
Proof.
  split; [reflexivity|].
  apply (rolling_window_guarantee smallConfig burstSchedule 0 1700000000500).
  - reflexivity.
  - vm_compute. discriminate.
  - cbn. lia.
Defined.

(** * Properties of the server ([index.ts]) *)

Lemma getToolByName_Some name tool :
  getToolByName name = Some tool → tool = name ∧ name ∈ toolNames.
Proof.
  unfold getToolByName. intros Hfind.
  apply List.find_some in Hfind as [Hin Heq].
  apply String.eqb_eq in Heq as ->. split; [done|]. by apply list_elem_of_In.
Qed.

Section HandlingFacts.
Variable config : Config.
Variable Args : Type.
Variable emptyArgs : Args.
Variable schemaParse : string → Args → option Exception.
Variable validationIsError : bool.
Variable postProcess : string → Args → string → string.

Abbreviation handle := (McpServer.handle Args emptyArgs schemaParse validationIsError).
Abbreviation step :=
  (McpServer.step config Args emptyArgs schemaParse validationIsError postProcess).
Abbreviation run :=
  (McpServer.run config Args emptyArgs schemaParse validationIsError postProcess).
Abbreviation proceed := (McpServer.proceed validationIsError).
Abbreviation proceedAtOnce := (McpServer.proceedAtOnce validationIsError).
Abbreviation activeIds st := (Server.activeRequests (McpServer.core st)).
Abbreviation shuttingDown st := (Server.isShuttingDown (McpServer.core st)).

(** The two ways in which the synchronous part of the handler ends. *)
Lemma handle_cases flag name args :
  (∃ answer, handle flag name args = inl answer ∧ McpServer.isError answer = true ∧
             (flag = true → answer = McpServer.errorResult "Server is shutting down") ∧
             (flag = true ∨ name ∉ toolNames ∨
              McpServer.validateToolInput Args schemaParse name (default emptyArgs args)
                ≠ None))
  ∨ (handle flag name args = inr name ∧ flag = false ∧ name ∈ toolNames ∧
     McpServer.validateToolInput Args schemaParse name (default emptyArgs args) = None).
Proof.
  unfold McpServer.handle. destruct flag; [left; eexists; repeat split; auto|].
  destruct (getToolByName name) as [tool|] eqn:Htool.
  - apply getToolByName_Some in Htool as [-> Hin].
    destruct (McpServer.validateToolInput _ _ _ _) as [[m|e|]|] eqn:Hv;
      [left; eexists; split; [done|]; split; [done|]; split; [done|]; auto..|].
    right. done.
  - left. eexists. split; [done|]. split; [done|]. split; [done|].
    right. left. intros Hin. apply list_elem_of_In in Hin.
    unfold getToolByName in Htool.
    apply (List.find_none _ _ Htool) in Hin. by rewrite String.eqb_refl in Hin.
Qed.

(** The lists of waiting calls. *)
Lemma lookupHandler_Some requestId hs h :
  McpServer.lookupHandler requestId hs = Some h →
  hs.*1 ≡ₚ requestId :: (McpServer.dropHandler requestId hs).*1.
Proof.
  induction hs as [|[id h'] hs IH]; cbn; [done|].
  destruct (String.eqb id requestId) eqn:Heq.
  - apply String.eqb_eq in Heq as ->. done.
  - intros Hl. cbn. rewrite (IH Hl). apply Permutation_swap.
Qed.

Lemma dropHandler_ids requestId hs x :
  x ∈ (McpServer.dropHandler requestId hs).*1 → x ∈ hs.*1.
Proof.
  induction hs as [|[id h'] hs IH]; cbn; [done|].
  destruct (String.eqb id requestId); cbn.
  - intros ?. by right.
  - intros [->|?]%elem_of_cons; [by left|]. right. by apply IH.
Qed.

Lemma putHandler_ids requestId h hs :
  (McpServer.putHandler requestId h hs).*1 = hs.*1.
Proof.
  induction hs as [|[id h'] hs IH]; cbn; [done|].
  destruct (String.eqb id requestId); cbn; [done|]. by rewrite IH.
Qed.

Lemma shrinks_orderly st st' : shrinks st st' → orderly st → orderly st'.
Proof.
  intros (Hf & Hc & Hd & Hcl & Hft & Hex & Hids) (Hidle & Hdrained & Hcodes).
  unfold orderly. rewrite Hf, Hc, Hd, Hcl, Hft, Hex.
  split; [done|]. split; [|done].
  intros H. specialize (Hdrained H). set_solver.
Qed.

Lemma answered_shrinks requestId answer st :
  shrinks st (McpServer.answered requestId answer st).1.
Proof. unfold shrinks. cbn. repeat split; try done. set_solver. Qed.

Lemma answeredAtOnce_shrinks requestId answer st :
  shrinks st (McpServer.answeredAtOnce requestId answer st).1.
Proof. unfold shrinks. cbn. repeat split; try done. set_solver. Qed.

Lemma proceed_shrinks requestId h opts r st :
  shrinks st (proceed requestId h opts r st).1.
Proof.
  unfold McpServer.proceed. destruct r as [w [a|v|e]]; cbn.
  - unfold shrinks. cbn. repeat split; done.
  - unfold shrinks. cbn. repeat split; try done. set_solver.
  - unfold shrinks. cbn. repeat split; try done. set_solver.
Qed.

Lemma starts_orderly requestId st st' :
  starts requestId st st' → shuttingDown st = false → orderly st → orderly st'.
Proof.
  intros (Hf & Hc & Hd & Hcl & Hft & Hex & Hids & _) Hup (Hidle & Hdrained & Hcodes).
  unfold orderly. rewrite Hf, Hc, Hd, Hcl, Hft, Hex.
  split; [done|]. split; [|done].
  destruct (Hidle Hup) as (_ & Hclosing & _ & Hexit).
  intros [H|H]; [lia|]. destruct Hexit as [Hexit|[Hexit _]]; congruence.
Qed.

Lemma starts_tracked requestId st st' :
  starts requestId st st' → requestId ∉ (McpServer.handlers st).*1 →
  tracked st → tracked st'.
Proof.
  intros (_ & _ & _ & _ & _ & _ & Hids & h & Hh) Hfresh [Ht Hnd].
  unfold tracked. rewrite Hids, Hh, fmap_app. cbn. split.
  - rewrite list_to_set_app_L, Ht. cbn. set_solver.
  - apply NoDup_app. split; [done|]. split.
    + intros x Hx Hx'%list_elem_of_singleton. by subst.
    + apply NoDup_singleton.
Qed.

Lemma proceedAtOnce_cases requestId h opts r st :
  let r' := proceedAtOnce requestId h opts r st in
  McpServer.world r'.1 = r.1 ∧
  (shrinks st r'.1 ∧ McpServer.handlers r'.1 = McpServer.handlers st ∧
   activeIds r'.1 = activeIds st ∖ {[requestId]} ∧ is_Some r'.2
   ∨ starts requestId st r'.1 ∧ r'.2 = None).
Proof.
  unfold McpServer.proceedAtOnce. destruct r as [w [a|v|e]]; cbn.
  - split; [done|]. right. split; [|done]. unfold starts. cbn.
    repeat split; try done. eauto.
  - split; [done|]. left. split; [|split; [done|split; [set_solver|eauto]]].
    unfold shrinks. cbn. repeat split; try done. set_solver.
  - split; [done|]. left. split; [|split; [done|split; [set_solver|eauto]]].
    unfold shrinks. cbn. repeat split; try done. set_solver.
Qed.

(** The invariant of the set along the turns that answer or go on. *)
Lemma answered_tracked requestId answer st h :
  McpServer.lookupHandler requestId (McpServer.handlers st) = Some h →
  tracked st → tracked (McpServer.answered requestId answer st).1.
Proof.
  intros Hl%lookupHandler_Some [Ht Hnd]. unfold tracked. cbn.
  rewrite Hl in Hnd. apply NoDup_cons in Hnd as [Hid Hnd].
  split; [|done]. rewrite Ht.
  assert (list_to_set (McpServer.handlers st).*1
          =@{gset string}
          {[requestId]} ∪ list_to_set (McpServer.dropHandler requestId
                                         (McpServer.handlers st)).*1) as ->.
  { apply set_eq. intros x. rewrite elem_of_list_to_set, Hl. set_solver. }
  apply (not_elem_of_list_to_set (C := gset string)) in Hid. set_solver.
Qed.

Lemma answeredAtOnce_tracked requestId answer st :
  requestId ∉ (McpServer.handlers st).*1 →
  tracked st → tracked (McpServer.answeredAtOnce requestId answer st).1.
Proof.
  intros Hfresh [Ht Hnd]. unfold tracked. cbn. split; [|done]. rewrite Ht.
  apply (not_elem_of_list_to_set (C := gset string)) in Hfresh. set_solver.
Qed.

Lemma proceed_tracked requestId h h' opts r st :
  McpServer.lookupHandler requestId (McpServer.handlers st) = Some h' →
  tracked st → tracked (proceed requestId h opts r st).1.
Proof.
  intros Hl Htr. unfold McpServer.proceed.
  destruct r as [w [a|v|e]]; cbv beta iota zeta; cbn [fst snd].
  - destruct Htr as [Ht Hnd]. unfold tracked. cbn. by rewrite putHandler_ids.
  - exact (answered_tracked requestId _ (McpServer.with_world w st) h' Hl Htr).
  - exact (answered_tracked requestId _ (McpServer.with_world w st) h' Hl Htr).
Qed.

Lemma proceed_handlers requestId h opts r st x :
  x ∈ (McpServer.handlers (proceed requestId h opts r st).1).*1 →
  x ∈ (McpServer.handlers st).*1.
Proof.
  unfold McpServer.proceed. destruct r as [w [a|v|e]]; cbn.
  - by rewrite putHandler_ids.
  - apply dropHandler_ids.
  - apply dropHandler_ids.
Qed.


Lemma step_orderly ev st : orderly st → orderly (step ev st).1.
Proof.
  intros Ho. pose proof Ho as (Hidle & Hdrained & Hcodes). unfold McpServer.step.
  destruct (McpServer.exited st) as [c|] eqn:Hex; [exact Ho|].
  destruct ev as [now id name args prefix|now id next|now id ok|now id|now id replies|
                  |now ok|now| | | | | |].
  - destruct (handle_cases (shuttingDown st) name args)
      as [(answer & -> & _)|(-> & Hup & _)].
    + eapply shrinks_orderly; [apply answeredAtOnce_shrinks|done].
    + destruct prefix as [x| |key].
      * eapply shrinks_orderly; [apply answeredAtOnce_shrinks|done].
      * case_bool_decide; [|done].
        eapply (starts_orderly id); [|done..]. unfold starts. cbn.
        repeat split; try done. eauto.
      * match goal with
        | |- orderly (McpServer.proceedAtOnce _ ?i ?h ?o ?r ?s).1 =>
            destruct (proceedAtOnce_cases i h o r s) as (_ & [(Hs & _)|(Hs & _)])
        end.
        -- by eapply shrinks_orderly.
        -- by eapply starts_orderly.
  - destruct (McpServer.lookupHandler id (McpServer.handlers st))
      as [[tool f [|opts a]]|]; [|done..].
    destruct next as [x|key].
    + eapply shrinks_orderly; [apply answered_shrinks|done].
    + eapply shrinks_orderly; [apply proceed_shrinks|done].
  - destruct (McpServer.lookupHandler id (McpServer.handlers st))
      as [[tool f [|opts [| |start]]]|];
      first [done | eapply shrinks_orderly; [apply proceed_shrinks|done]].
  - destruct (McpServer.lookupHandler id (McpServer.handlers st))
      as [[tool f [|opts [| |start]]]|];
      first [done | eapply shrinks_orderly; [apply proceed_shrinks|done]].
  - destruct (McpServer.lookupHandler id (McpServer.handlers st))
      as [[tool f [|opts [| |start]]]|];
      first [done | eapply shrinks_orderly; [apply proceed_shrinks|done]].
  - destruct (healthInterval (McpServer.world st)); [|done].
    eapply shrinks_orderly; [|done]. unfold shrinks. cbn. repeat split; done.
  - destruct (McpServer.loopProbes st); [done|].
    eapply shrinks_orderly; [|done]. unfold shrinks. cbn. repeat split; done.
  - cbn. destruct (NodeCache.checkTimer _); [|done].
    eapply shrinks_orderly; [|done]. unfold shrinks. cbn. repeat split; done.
  - cbn. unfold orderly. cbn. split; [|split; [|done]].
    + intros Hup. destruct (Hidle Hup) as (? & ? & ? & _). auto.
    + intros [Hc|Hc]; [|done]. apply Hdrained. by left.
  - destruct (McpServer.connecting st) eqn:Hconn; [|done]. cbn.
    unfold orderly. cbn. split; [|split].
    + intros Hup. destruct (Hidle Hup) as (? & ? & ? & _).
      split_and!; [done..|]. by right.
    + intros [Hc|Hc]; [|done]. apply Hdrained. by left.
    + intros c [= <-]. by right.
  - cbn. case_bool_decide as Hempty; cbn; unfold orderly; cbn;
      (split; [done|]); (split; [|done]).
    + intros _. done.
    + intros [Hc|Hc]; [|done]. apply Hdrained. by left.
  - destruct (McpServer.drainLoops st) as [|n] eqn:Hloops; [done|]. cbn.
    case_bool_decide as Hempty; cbn; [|done].
    unfold orderly. cbn. split; [|split; [done|done]].
    intros Hup. destruct (Hidle Hup) as (Hl & _). lia.
  - destruct (McpServer.closing st) as [|n] eqn:Hcl; [done|]. cbn.
    unfold orderly. cbn. split; [|split].
    + intros Hup. destruct (Hidle Hup) as (_ & Hc & _). lia.
    + intros _. apply Hdrained. left. lia.
    + intros c [= <-]. by left.
  - destruct (McpServer.forceTimers st) as [|n] eqn:Hft; [done|]. cbn.
    unfold orderly. cbn. split; [|split].
    + intros Hup. destruct (Hidle Hup) as (_ & _ & Hc & _). lia.
    + intros [Hc|Hc]; [|done]. apply Hdrained. by left.
    + intros c [= <-]. by right.
Qed.

Lemma step_tracked ev st :
  tracked st →
  (∀ now id name args prefix, ev = McpServer.ToolCall now id name args prefix →
                              id ∉ (McpServer.handlers st).*1) →
  tracked (step ev st).1.
Proof.
  intros Htr Hfresh. unfold McpServer.step.
  destruct (McpServer.exited st) as [c|] eqn:Hex; [exact Htr|].
  destruct ev as [now id name args prefix|now id next|now id ok|now id|now id replies|
                  |now ok|now| | | | | |].
  - specialize (Hfresh now id name args prefix eq_refl).
    destruct (handle (shuttingDown st) name args) as [answer|tool].
    + by apply answeredAtOnce_tracked.
    + destruct prefix as [x| |key].
      * by apply answeredAtOnce_tracked.
      * case_bool_decide; [|done].
        eapply (starts_tracked id); [|done..]. unfold starts. cbn.
        repeat split; try done. eauto.
      * match goal with
        | |- tracked (McpServer.proceedAtOnce _ ?i ?h ?o ?r ?s).1 =>
            destruct (proceedAtOnce_cases i h o r s)
              as (_ & [(_ & Hh & Hids & _)|(Hs & _)])
        end.
        -- destruct Htr as [Ht Hnd]. unfold tracked. rewrite Hh, Hids, Ht.
           split; [|done].
           apply (not_elem_of_list_to_set (C := gset string)) in Hfresh. set_solver.
        -- by eapply starts_tracked.
  - destruct (McpServer.lookupHandler id (McpServer.handlers st))
      as [[tool f [|opts a]]|] eqn:Hl; [|done..].
    destruct next as [x|key].
    + by eapply answered_tracked.
    + by eapply proceed_tracked.
  - destruct (McpServer.lookupHandler id (McpServer.handlers st))
      as [[tool f [|opts [| |start]]]|] eqn:Hl;
      first [done | by eapply proceed_tracked].
  - destruct (McpServer.lookupHandler id (McpServer.handlers st))
      as [[tool f [|opts [| |start]]]|] eqn:Hl;
      first [done | by eapply proceed_tracked].
  - destruct (McpServer.lookupHandler id (McpServer.handlers st))
      as [[tool f [|opts [| |start]]]|] eqn:Hl;
      first [done | by eapply proceed_tracked].
  - by destruct (healthInterval (McpServer.world st)).
  - by destruct (McpServer.loopProbes st).
  - cbn. by destruct (NodeCache.checkTimer _).
  - done.
  - by destruct (McpServer.connecting st).
  - cbn. by case_bool_decide.
  - destruct (McpServer.drainLoops st); [done|]. cbn. by case_bool_decide.
  - by destruct (McpServer.closing st).
  - by destruct (McpServer.forceTimers st).
Qed.

Lemma step_handlers_ids ev st :
  ∀ x, x ∈ (McpServer.handlers (step ev st).1).*1 →
       x ∈ (McpServer.handlers st).*1 ∨ x ∈ McpServer.callIds Args [ev].
Proof.
  intros x. unfold McpServer.step.
  destruct (McpServer.exited st) as [c|]; [auto|].
  destruct ev as [now id name args prefix|now id next|now id ok|now id|now id replies|
                  |now ok|now| | | | | |].
  - destruct (handle (shuttingDown st) name args) as [answer|tool]; [cbn; auto|].
    destruct prefix as [x'| |key]; [cbn; auto|..].
    + case_bool_decide; [|auto]. cbn. rewrite fmap_app, elem_of_app. cbn.
      intros [?|?]; [auto|]. right. unfold McpServer.callIds. cbn. done.
    + match goal with
      | |- _ ∈ (McpServer.handlers (McpServer.proceedAtOnce _ ?i ?h ?o ?r ?s).1).*1 → _ =>
          destruct (proceedAtOnce_cases i h o r s)
            as (_ & [(_ & Hh & _)|((_ & _ & _ & _ & _ & _ & _ & h' & Hh) & _)])
      end; rewrite Hh; [auto|].
      rewrite fmap_app, elem_of_app. cbn.
      intros [?|?]; [auto|]. right. unfold McpServer.callIds. cbn. done.
  - destruct (McpServer.lookupHandler id (McpServer.handlers st))
      as [[tool f [|opts a]]|]; [|auto..].
    destruct next as [x'|key].
    + cbn. intros H%dropHandler_ids. auto.
    + intros H%proceed_handlers. auto.
  - destruct (McpServer.lookupHandler id (McpServer.handlers st))
      as [[tool f [|opts [| |start]]]|]; auto;
      intros H%proceed_handlers; auto.
  - destruct (McpServer.lookupHandler id (McpServer.handlers st))
      as [[tool f [|opts [| |start]]]|]; auto;
      intros H%proceed_handlers; auto.
  - destruct (McpServer.lookupHandler id (McpServer.handlers st))
      as [[tool f [|opts [| |start]]]|]; auto;
      intros H%proceed_handlers; auto.
  - destruct (healthInterval (McpServer.world st)); auto.
  - destruct (McpServer.loopProbes st); auto.
  - cbn. destruct (NodeCache.checkTimer _); auto.
  - auto.
  - destruct (McpServer.connecting st); auto.
  - cbn. case_bool_decide; auto.
  - destruct (McpServer.drainLoops st); [auto|]. cbn. case_bool_decide; auto.
  - destruct (McpServer.closing st); auto.
  - destruct (McpServer.forceTimers st); auto.
Qed.

Lemma run_invariants schedule : ∀ st,
  tracked st → orderly st →
  NoDup (McpServer.callIds Args schedule) →
  (∀ x, x ∈ McpServer.callIds Args schedule → x ∉ (McpServer.handlers st).*1) →
  tracked (run schedule st).1 ∧ orderly (run schedule st).1.
Proof.
  induction schedule as [|ev schedule IH]; intros st Ht Ho Hnd Hfresh; [done|].
  cbn. apply IH.
  - apply step_tracked; [done|]. intros now id name args prefix ->.
    apply Hfresh. unfold McpServer.callIds. cbn. left.
  - by apply step_orderly.
  - unfold McpServer.callIds in *. cbn in Hnd.
    destruct ev; cbn in Hnd; try done. by apply NoDup_cons in Hnd as [_ ?].
  - intros x Hx Hin. apply step_handlers_ids in Hin as [Hin|Hin].
    + revert Hin. apply Hfresh. unfold McpServer.callIds in *. cbn.
      destruct ev; cbn; try done. by right.
    + unfold McpServer.callIds in *. cbn in *.
      destruct ev; cbn in *; try by apply elem_of_nil in Hin.
      apply list_elem_of_singleton in Hin as ->.
      by apply NoDup_cons in Hnd as [? _].
Qed.

(** X17. When the request identifiers are all different, as UUIDs are,
    the set that the drain loop polls holds, after any schedule of calls,
    settlings, signals, polls and timers, exactly the identifiers of the
    tool calls that still wait for their tool's handler: every call that
    was answered, with a result or an error, has been removed, and none
    that is still waiting has. *)
Theorem requests_tracked (schedule : list (McpServer.Event Args)) (w : World) :
  NoDup (McpServer.callIds Args schedule) →
  let st := (run schedule (McpServer.create w)).1 in
  activeIds st = list_to_set (McpServer.handlers st).*1 ∧
  NoDup (McpServer.handlers st).*1 ∧
  size (activeIds st) = length (McpServer.handlers st).
Proof.
  intros Hnd st.
  destruct (run_invariants schedule (McpServer.create w)) as [[Hids Hnd'] _].
  - split; [done|]. cbn. apply NoDup_nil_2.
  - split; [cbn; auto|]. split; [|done]. cbn. intros [Hc|Hc]; [lia|done].
  - done.
  - intros x _. cbn. apply not_elem_of_nil.
  - split; [done|]. split; [done|].
    fold st in Hids, Hnd'. rewrite Hids.
    rewrite size_list_to_set by done. by rewrite length_fmap.
Qed.

(** X18. The process exits with code 0 or 1 only. It exits with code 0
    only after a signal, and then (request identifiers all different) no
    tool call is waiting for its handler: a clean exit abandons no call.
    Without a signal it exits only because [start] failed: with code 1,
    before [server.connect] has resolved. *)
Theorem clean_exit_means_drained (schedule : list (McpServer.Event Args)) (w : World) :
  NoDup (McpServer.callIds Args schedule) →
  let st := (run schedule (McpServer.create w)).1 in
  (∀ c, McpServer.exited st = Some c → c = 0 ∨ c = 1) ∧
  (McpServer.exited st = Some 0 →
   shuttingDown st = true ∧ McpServer.handlers st = [] ∧ activeIds st = ∅) ∧
  (∀ c, McpServer.exited st = Some c → shuttingDown st = false →
        c = 1 ∧ McpServer.connecting st = true).
Proof.
  intros Hnd st.
  destruct (run_invariants schedule (McpServer.create w))
    as [[Hids Hnd'] (Hidle & Hdrained & Hcodes)].
  - split; [done|]. cbn. apply NoDup_nil_2.
  - split; [cbn; auto|]. split; [|done]. cbn. intros [Hc|Hc]; [lia|done].
  - done.
  - intros x _. cbn. apply not_elem_of_nil.
  - fold st in Hids, Hnd', Hidle, Hdrained, Hcodes.
    split; [done|]. split.
    + intros H0. split.
      { destruct (shuttingDown st) eqn:Hflag; [done|].
        destruct (Hidle eq_refl) as (_ & _ & _ & [Hnone|[Hone _]]); congruence. }
      assert (Hempty : activeIds st = ∅) by (apply Hdrained; by right).
      split; [|done]. rewrite Hids in Hempty.
      destruct (McpServer.handlers st) as [|[id n] hs]; [done|].
      cbn in Hempty. set_solver.
    + intros c Hc Hup.
      destruct (Hidle Hup) as (_ & _ & _ & [Hnone|[Hone Hconn]]); [congruence|].
      split; [congruence|done].
Qed.

End HandlingFacts.


Lemma requests_tracked_witness :
  let st := (McpServer.run defaultConfig unit tt (λ _ _, None) true (λ _ _ s, s)
               (take 8 drainSchedule)
               (McpServer.create (freshWorld defaultConfig))).1 in
  Server.activeRequests (McpServer.core st) = {["b"]} ∧
  (McpServer.handlers st).*1 = ["b"].
Proof.
  intros st.
  destruct (requests_tracked defaultConfig unit tt (λ _ _, None) true (λ _ _ s, s)
              (take 8 drainSchedule) (freshWorld defaultConfig)) as (Hids & _ & _).
  - apply (bool_decide_unpack _). vm_compute. exact I.
  - assert (Hh : (McpServer.handlers st).*1 = ["b"]) by (vm_compute; reflexivity).
    split; [|exact Hh].
    etrans; [exact Hids|]. fold st. rewrite Hh. cbn. set_solver.
Defined.

Lemma clean_exit_means_drained_witness :
  let r := McpServer.run defaultConfig unit tt (λ _ _, None) true (λ _ _ s, s)
             drainSchedule (McpServer.create (freshWorld defaultConfig)) in
  McpServer.exited r.1 = Some 0 ∧ McpServer.handlers r.1 = [] ∧
  McpServer.text <$> r.2
    = ["short"; "Error: Server is shutting down"; "Error: body is not iterable"].
Proof.
  intros r.
  destruct (clean_exit_means_drained defaultConfig unit tt (λ _ _, None) true
              (λ _ _ s, s) drainSchedule
              (freshWorld defaultConfig)) as (_ & Hclean & _).
  - apply (bool_decide_unpack _). vm_compute. exact I.
  - assert (Hex : McpServer.exited r.1 = Some 0) by (vm_compute; reflexivity).
    split; [exact Hex|]. split; [apply (Hclean Hex) | vm_compute; reflexivity].
Defined.

(** * Properties of [loadConfig] *)

Section LoadingFacts.
Variable parseInt : string → option Z.
Variable isUrl : string → bool.

Abbreviation loadConfig := (ConfigLoader.loadConfig parseInt isUrl).
Abbreviation number := (ConfigLoader.number parseInt).

Lemma positiveInt_Some x z :
  ConfigLoader.positiveInt x = Some z → x = Some z ∧ 0 < z.
Proof.
  unfold ConfigLoader.positiveInt. destruct x as [y|]; [|done].
  case_bool_decide; [|done]. by intros [= ->].
Qed.

(** X19. Every configuration that [loadConfig] returns satisfies the
    schema's bounds: each of its numbers is what [parseInt] read from the
    variable (or from the default when the variable is unset or empty),
    and is positive. So a retry count, delay, timeout, bound, TTL or
    interval of 0, a negative one or one that is no number makes
    [loadConfig] throw instead: retries, for one, cannot be switched
    off. *)
Theorem loaded_config_positive (env : gmap string string) (c : Config) :
  loadConfig env = Some c →
  ConfigSchema c = true ∧
  parseInt (ConfigLoader.orElse env "LM_STUDIO_MAX_RETRIES" "3")
    = Some (lmStudio_maxRetries c) ∧
  parseInt (ConfigLoader.orElse env "LM_STUDIO_RETRY_DELAY" "1000")
    = Some (lmStudio_retryDelay c) ∧
  parseInt (ConfigLoader.orElse env "LM_STUDIO_TIMEOUT" "30000")
    = Some (lmStudio_timeout c) ∧
  parseInt (ConfigLoader.orElse env "HEALTH_CHECK_INTERVAL" "60000")
    = Some (lmStudio_healthCheckInterval c) ∧
  parseInt (ConfigLoader.orElse env "GRACEFUL_SHUTDOWN_TIMEOUT" "5000")
    = Some (server_gracefulShutdownTimeout c) ∧
  parseInt (ConfigLoader.orElse env "RATE_LIMIT_MAX_REQUESTS" "60")
    = Some (rateLimit_maxRequestsPerMinute c) ∧
  parseInt (ConfigLoader.orElse env "RATE_LIMIT_MAX_CONCURRENT" "10")
    = Some (rateLimit_maxConcurrent c) ∧
  parseInt (ConfigLoader.orElse env "CACHE_TTL" "300") = Some (cache_ttl c) ∧
  parseInt (ConfigLoader.orElse env "CACHE_CHECK_PERIOD" "60")
    = Some (cache_checkPeriod c).
Proof.
  unfold ConfigLoader.loadConfig, ConfigLoader.number.
  destruct (negb (isUrl _)); [done|].
  destruct (negb (bool_decide _)); [done|].
  intros Hload.
  repeat match type of Hload with
         | (ConfigLoader.positiveInt ?x ≫= _) = Some _ =>
             let z := fresh "z" in
             let H := fresh "Hz" in
             destruct (ConfigLoader.positiveInt x) as [z|] eqn:H;
               [apply positiveInt_Some in H as [H ?]; cbn in Hload|done]
         end.
  injection Hload as <-. cbn.
  unfold ConfigSchema. cbn.
  rewrite !bool_decide_eq_true_2 by done. done.
Qed.

(** X20. Rate limiting and caching are on unless their variable is
    exactly the string [false]: unset, empty, [0], [no], [FALSE] or
    anything else leaves them on. *)
Theorem flags_off_only_by_false (env : gmap string string) (c : Config) :
  loadConfig env = Some c →
  (rateLimit_enabled c = false ↔ env !! "RATE_LIMIT_ENABLED" = Some "false") ∧
  (cache_enabled c = false ↔ env !! "CACHE_ENABLED" = Some "false").
Proof.
  unfold ConfigLoader.loadConfig.
  destruct (negb (isUrl _)); [done|].
  destruct (negb (bool_decide _)); [done|].
  intros Hload.
  repeat match type of Hload with
         | (?x ≫= _) = Some _ => destruct x; [cbn in Hload|done]
         end.
  injection Hload as <-. cbn. unfold ConfigLoader.notFalse.
  split.
  - destruct (env !! "RATE_LIMIT_ENABLED") as [s|]; [|done].
    destruct (String.eqb s "false") eqn:Hs; cbn.
    + apply String.eqb_eq in Hs as ->. done.
    + apply String.eqb_neq in Hs. split; [done|]. by intros [= ->].
  - destruct (env !! "CACHE_ENABLED") as [s|]; [|done].
    destruct (String.eqb s "false") eqn:Hs; cbn.
    + apply String.eqb_eq in Hs as ->. done.
    + apply String.eqb_neq in Hs. split; [done|]. by intros [= ->].
Qed.

Lemma orElse_empty env var x dflt :
  ConfigLoader.orElse (<[var := ""]> env) x dflt
    = ConfigLoader.orElse (delete var env) x dflt.
Proof.
  unfold ConfigLoader.orElse. destruct (decide (var = x)) as [->|Hne].
  - by rewrite lookup_insert_eq, lookup_delete_eq.
  - by rewrite lookup_insert_ne, lookup_delete_ne.
Qed.

Lemma notFalse_empty env var x :
  ConfigLoader.notFalse (<[var := ""]> env) x
    = ConfigLoader.notFalse (delete var env) x.
Proof.
  unfold ConfigLoader.notFalse. destruct (decide (var = x)) as [->|Hne].
  - by rewrite lookup_insert_eq, lookup_delete_eq.
  - by rewrite lookup_insert_ne, lookup_delete_ne.
Qed.

(** X21. For [loadConfig] a variable set to the empty string is the
    same as a variable that is not set, whichever variable it is: the
    outcome, and the configuration if there is one, are the same. *)
Theorem empty_is_unset (env : gmap string string) (var : string) :
  loadConfig (<[var := ""]> env) = loadConfig (delete var env).
Proof.
  unfold ConfigLoader.loadConfig, ConfigLoader.number.
  by rewrite !orElse_empty, !notFalse_empty.
Qed.

End LoadingFacts.

Lemma loaded_config_positive_witness :
  ConfigLoader.loadConfig ConfigLoader.decimal (λ _, true)
    {[ "LM_STUDIO_MAX_RETRIES" := "5"; "RATE_LIMIT_ENABLED" := "no" ]}
  = Some {| lmStudio_maxRetries := 5; lmStudio_retryDelay := 1000;
            lmStudio_timeout := 30000; lmStudio_healthCheckInterval := 60000;
            server_gracefulShutdownTimeout := 5000;
            rateLimit_enabled := true; rateLimit_maxRequestsPerMinute := 60;
            rateLimit_maxConcurrent := 10;
            cache_enabled := true; cache_ttl := 300; cache_checkPeriod := 60 |} ∧
  ConfigSchema {| lmStudio_maxRetries := 5; lmStudio_retryDelay := 1000;
            lmStudio_timeout := 30000; lmStudio_healthCheckInterval := 60000;
            server_gracefulShutdownTimeout := 5000;
            rateLimit_enabled := true; rateLimit_maxRequestsPerMinute := 60;
            rateLimit_maxConcurrent := 10;
            cache_enabled := true; cache_ttl := 300; cache_checkPeriod := 60 |} = true.
Proof.
  assert (Hload : ConfigLoader.loadConfig ConfigLoader.decimal (λ _, true)
            {[ "LM_STUDIO_MAX_RETRIES" := "5"; "RATE_LIMIT_ENABLED" := "no" ]}
          = Some {| lmStudio_maxRetries := 5; lmStudio_retryDelay := 1000;
            lmStudio_timeout := 30000; lmStudio_healthCheckInterval := 60000;
            server_gracefulShutdownTimeout := 5000;
            rateLimit_enabled := true; rateLimit_maxRequestsPerMinute := 60;
            rateLimit_maxConcurrent := 10;
            cache_enabled := true; cache_ttl := 300; cache_checkPeriod := 60 |})
    by (vm_compute; reflexivity).
  split; [exact Hload|].
  apply (loaded_config_positive ConfigLoader.decimal (λ _, true) _ _ Hload).
Defined.

Lemma flags_off_only_by_false_witness :
  let c := {| lmStudio_maxRetries := 3; lmStudio_retryDelay := 1000;
              lmStudio_timeout := 30000; lmStudio_healthCheckInterval := 60000;
              server_gracefulShutdownTimeout := 5000;
              rateLimit_enabled := true; rateLimit_maxRequestsPerMinute := 60;
              rateLimit_maxConcurrent := 10;
              cache_enabled := false; cache_ttl := 300; cache_checkPeriod := 60 |} in
  ConfigLoader.loadConfig ConfigLoader.decimal (λ _, true)
    {[ "CACHE_ENABLED" := "false"; "RATE_LIMIT_ENABLED" := "FALSE" ]} = Some c ∧
  (cache_enabled c = false ↔
   ({[ "CACHE_ENABLED" := "false"; "RATE_LIMIT_ENABLED" := "FALSE" ]} : gmap string string)
     !! "CACHE_ENABLED" = Some "false").
Proof.
  intros c.
  assert (Hload : ConfigLoader.loadConfig ConfigLoader.decimal (λ _, true)
            {[ "CACHE_ENABLED" := "false"; "RATE_LIMIT_ENABLED" := "FALSE" ]} = Some c)
    by (vm_compute; reflexivity).
  split; [exact Hload|].
  apply (flags_off_only_by_false ConfigLoader.decimal (λ _, true) _ _ Hload).
Defined.

(** * The bound and the health state along schedules with streams *)

Lemma completeStream_enter_bound config now w :
  rateLimit_enabled config = true →
  activeRequests (client w) ≤ rateLimit_maxConcurrent config →
  activeRequests (client (completeStream_enter config now w).1)
    ≤ rateLimit_maxConcurrent config.
Proof.
  intros Hen Hle. unfold completeStream_enter, enforceRateLimit. rewrite Hen. cbn.
  repeat case_bool_decide; cbn; try lia.
  destruct (isHealthy (client w)); cbn; lia.
Qed.

Lemma stream_enter_health config now w :
  isHealthy (client (completeStream_enter config now w).1) = isHealthy (client w) ∧
  lastHealthCheck (client (completeStream_enter config now w).1)
    = lastHealthCheck (client w).
Proof.
  unfold completeStream_enter.
  pose proof (enforceRateLimit_sameCounters config now (client w)) as (_ & Hh & Hl & _).
  destruct (enforceRateLimit config now (client w)) as [s1 [[]|e]]; cbn in *; [|done].
  destruct (isHealthy s1) eqn:E; cbn; split; congruence.
Qed.

(** X22. With rate limiting on, the only way past the concurrency bound
    is the resumption of a call of [complete] after its re-probe: along
    every schedule of [complete] and [completeStream] calls, probes,
    sweeps and shutdowns in which no call resumes from a re-probe, the
    active count never exceeds [maxConcurrent]. In particular
    [completeStream], which checks and counts in one turn, keeps the
    bound. *)
Theorem bound_kept_without_resume (config : Config) (schedule : list (Z * Turn)) :
  rateLimit_enabled config = true →
  0 ≤ rateLimit_maxConcurrent config →
  Forall (λ tt, match tt.2 with ClientTurn ev => isResume ev = false | _ => True end)
    schedule →
  activeRequests
    (client (world (system (runProcess config schedule (newProcess config)))))
    ≤ rateLimit_maxConcurrent config.
Proof.
  intros Hen HN Hall.
  assert (Hrun : ∀ p,
            activeRequests (client (world (system p))) ≤ rateLimit_maxConcurrent config →
            activeRequests (client (world (system (runProcess config schedule p))))
              ≤ rateLimit_maxConcurrent config).
  { induction Hall as [|[now turn] schedule Hturn _ IH]; intros p Hp; [done|].
    cbn. apply IH. destruct turn as [ev|id callback|id course]; cbn in *.
    - by apply step_bound.
    - destruct (streamCalls p !! id); [done|]. cbn.
      by apply completeStream_enter_bound.
    - destruct (streamCalls p !! id) as [[cb [start| |e] rec]|]; try done. cbn.
      pose proof (completeStream_settle_cases cb course (world (system p)))
        as (Ha & _). cbn in Ha. lia. }
  apply Hrun. cbn. lia.
Qed.

Lemma bound_kept_without_resume_witness :
  activeRequests
    (client (world (system (runProcess smallConfig burstSchedule
                              (newProcess smallConfig))))) ≤ 1.
Proof.
  apply (bound_kept_without_resume smallConfig burstSchedule).
  - reflexivity.
  - vm_compute. discriminate.
  - repeat constructor.
Defined.

(** X23. The health state has one writer. A turn changes [isHealthy]
    or [lastHealthCheck] only if in it a probe settles (the re-probe of a
    call of [complete] that waits for it, or a probe of the health loop
    that is pending); the flag is then what that probe found, and the
    time of the last check is set to the clock only when the probe
    succeeded. Entering, resuming, settling, streaming, sweeping and
    [shutdown] never touch them. *)
Theorem health_written_by_probes_only (config : Config) (now : Z) (turn : Turn)
    (p : Process) :
  let s := client (world (system p)) in
  let s' := client (world (system (stepProcess config now turn p))) in
  (isHealthy s' = isHealthy s ∧ lastHealthCheck s' = lastHealthCheck s)
  ∨ ∃ ok,
      (turn = ClientTurn (LoopProbeSettles ok) ∧ (0 < loopProbes (system p))%nat
       ∨ ∃ id, turn = ClientTurn (ProbeSettles id ok) ∧
               callState (system p) id = Some (Suspended AwaitCheckHealth)) ∧
      isHealthy s' = ok ∧
      lastHealthCheck s' = (if ok then now else lastHealthCheck s).
Proof.
  cbn. destruct turn as [ev|id callback|id course]; cbn.
  - destruct ev as [id opts|id ok|id|id replies| |ok| |]; cbn.
    + left. destruct (calls (system p) !! id); [done|]. cbn.
      unfold complete_enter.
      destruct (cacheGet_fields config now opts (client (world (system p))))
        as (Hh & Hl & _).
      destruct (cacheGet config now opts (client (world (system p)))) as [cached s0].
      cbn in *. destruct (truthy cached); cbn; [done|].
      pose proof (enforceRateLimit_sameCounters config now s0) as (_ & Hh' & Hl' & _).
      destruct (enforceRateLimit config now s0) as [s1 [[]|e]]; cbn in *;
        [|split; congruence].
      destruct (negb (isHealthy s1) && _); cbn; [split; congruence|].
      unfold complete_dispatch.
      destruct (negb (isHealthy _)); cbn; split; congruence.
    + destruct (calls (system p) !! id) as [[o [[]| |]]|] eqn:Hid; auto.
      right. exists ok. split.
      * right. exists id. split; [done|]. unfold callState. by rewrite Hid.
      * cbn. by destruct ok.
    + left. destruct (calls (system p) !! id) as [[o [[]| |]]|]; try done. cbn.
      unfold complete_dispatch. by destruct (negb (isHealthy _)).
    + left. destruct (calls (system p) !! id) as [[o [[]| |]]|]; try done. cbn.
      unfold complete_settle. destruct (PRetry.outcome _); cbn; [|done].
      by destruct (cachingKey config o).
    + left. by destruct (healthInterval _).
    + destruct (loopProbes (system p)) as [|n] eqn:Hn; [by left|].
      right. exists ok. split; [left; split; [done|lia]|]. cbn. by destruct ok.
    + left. by destruct (NodeCache.checkTimer _).
    + by left.
  - left. destruct (streamCalls p !! id); [done|]. cbn.
    destruct (stream_enter_health config now (world (system p))) as [? ?]. done.
  - left. destruct (streamCalls p !! id) as [[cb [start| |e] rec]|]; try done. cbn.
    unfold completeStream_settle.
    destruct (forAwait cb (chunks course)) as [r [e|]]; cbn; [done|].
    by destruct (failure course).
Qed.
